(** * Airtop MCP server: the tool handlers and the error normalizer of
      [mcp-server.ts], and [main] with its HTTP gateway from the entry-point
      module.

    The program is TypeScript running on Node.  Its values are modelled as
    JavaScript data living in a heap of objects, its asynchronous handlers as
    computations in a state-and-exception monad over the session registry and
    the log of backend calls, and the two process-wide registries as finite
    maps. *)

From Stdlib Require Import ZArith Ascii String DecimalString.
From stdpp Require Import base gmap strings list.

Local Open Scope string_scope.
Local Open Scope nat_scope.

(* ===================================================================== *)
(** ** JavaScript data *)
(* ===================================================================== *)

(** Values.  Arrays and objects are references into a heap, so that sharing
    and reference cycles are representable.  Numbers are the integer-valued
    ones (fractions, NaN and the infinities are left out); strings are
    sequences of code units.  Functions, symbols and BigInts are left out. *)
Inductive Val :=
| VUndefined
| VNull
| VBool (b : bool)
| VNum (n : Z)
| VStr (s : string)
| VRef (a : nat).

(** A heap object: an array, or a plain object given by its own enumerable
    properties in enumeration order. *)
Inductive Obj :=
| OArray (elems : list Val)
| OObject (props : list (string * Val)).

(** The heap: the object at address [a] is [h !! a]. *)
Abbreviation Heap := (list Obj).

Global Instance Val_eq_dec : EqDecision Val.
Proof. solve_decision. Defined.

Definition Val_encode (v : Val) : unit + (unit + (bool + (Z + (string + nat)))) :=
  match v with
  | VUndefined => inl ()
  | VNull => inr (inl ())
  | VBool b => inr (inr (inl b))
  | VNum n => inr (inr (inr (inl n)))
  | VStr s => inr (inr (inr (inr (inl s))))
  | VRef a => inr (inr (inr (inr (inr a))))
  end.

Definition Val_decode (x : unit + (unit + (bool + (Z + (string + nat))))) : Val :=
  match x with
  | inl _ => VUndefined
  | inr (inl _) => VNull
  | inr (inr (inl b)) => VBool b
  | inr (inr (inr (inl n))) => VNum n
  | inr (inr (inr (inr (inl s)))) => VStr s
  | inr (inr (inr (inr (inr a)))) => VRef a
  end.

Global Instance Val_countable : Countable Val.
Proof. apply (inj_countable' Val_encode Val_decode). by intros []. Defined.

(** Exceptions.  The program observes a caught exception only through
    [String(err)]; a thrown value other than the runtime's own TypeError is
    represented by that rendering. *)
Inductive Exn :=
| TypeError (msg : string)
| Raised (rendering : string)
| UnknownTool (name : string).

Definition String_of_exn (e : Exn) : string :=
  match e with
  | TypeError msg => "TypeError: " +:+ msg
  | Raised s => s
  | UnknownTool name => "Error: Tool " +:+ name +:+ " not found"
  end.

(** The outcome of evaluating an expression: a value, an exception, or the
    recursion budget of the model used up (shown below never to happen). *)
Inductive Outcome (A : Type) :=
| Ok (a : A)
| Throw (e : Exn)
| OutOfFuel.
Arguments Ok {A} a.
Arguments Throw {A} e.
Arguments OutOfFuel {A}.

Global Instance Outcome_ret : MRet Outcome := @Ok.
Global Instance Outcome_bind : MBind Outcome := λ A B f m,
  match m with
  | Ok a => f a
  | Throw e => Throw e
  | OutOfFuel => OutOfFuel
  end.

(** The characters that cannot be written inside a literal. *)
Definition dquote : string := String "034" EmptyString.
Definition newline : string := String "010" EmptyString.
Definition backslash : string := String "092" EmptyString.

(** [!v] is [negb (truthy v)]. *)
Definition truthy (v : Val) : bool :=
  match v with
  | VUndefined | VNull => false
  | VBool b => b
  | VNum n => negb (n =? 0)%Z
  | VStr s => negb (String.eqb s EmptyString)
  | VRef _ => true
  end.

(** [v == null], the test of [??] and [?.]. *)
Definition nullish (v : Val) : bool :=
  match v with
  | VUndefined | VNull => true
  | _ => false
  end.

Fixpoint assoc (k : string) (ps : list (string * Val)) : option Val :=
  match ps with
  | [] => None
  | (k', v) :: ps => if String.eqb k k' then Some v else assoc k ps
  end.

(** [v[k]] for the keys the program reads ([errors], [data], [id], [length],
    [fileId], [message]); none of them is inherited from a built-in
    prototype.  An address outside the heap reads as an empty object (heaps
    of JavaScript programs have none). *)
Definition get_prop (h : Heap) (v : Val) (k : string) : Outcome Val :=
  match v with
  | VUndefined =>
      Throw (TypeError ("Cannot read properties of undefined (reading '" +:+ k +:+ "')"))
  | VNull =>
      Throw (TypeError ("Cannot read properties of null (reading '" +:+ k +:+ "')"))
  | VBool _ | VNum _ => Ok VUndefined
  | VStr s =>
      if String.eqb k "length" then Ok (VNum (Z.of_nat (String.length s)))
      else Ok VUndefined
  | VRef a =>
      match h !! a with
      | Some (OArray elems) =>
          if String.eqb k "length" then Ok (VNum (Z.of_nat (length elems)))
          else Ok VUndefined
      | Some (OObject props) => Ok (default VUndefined (assoc k props))
      | None => Ok VUndefined
      end
  end.

(** [v?.k] *)
Definition opt_prop (h : Heap) (v : Val) (k : string) : Outcome Val :=
  if nullish v then Ok VUndefined else get_prop h v k.

(** Number::toString on an integer (all its digits, as JavaScript prints an
    integer below 10^21). *)
Definition Number_toString (n : Z) : string :=
  NilZero.string_of_int (Z.to_int n).

(** *** JSON.stringify *)

Definition hex_digit (n : nat) : string :=
  String (nth n (list_ascii_of_string "0123456789abcdef") "0"%char) EmptyString.

(** QuoteJSONString, per code unit. *)
Definition json_escape_char (c : ascii) : string :=
  let n := nat_of_ascii c in
  if (n =? 34)%nat then backslash +:+ dquote
  else if (n =? 92)%nat then backslash +:+ backslash
  else if (n =? 8)%nat then backslash +:+ "b"
  else if (n =? 12)%nat then backslash +:+ "f"
  else if (n =? 10)%nat then backslash +:+ "n"
  else if (n =? 13)%nat then backslash +:+ "r"
  else if (n =? 9)%nat then backslash +:+ "t"
  else if (n <? 32)%nat then
    backslash +:+ "u00" +:+ hex_digit (n / 16) +:+ hex_digit (n mod 16)
  else String c EmptyString.

Fixpoint json_escape (s : string) : string :=
  match s with
  | EmptyString => EmptyString
  | String c s => json_escape_char c +:+ json_escape s
  end.

Definition json_quote (s : string) : string :=
  dquote +:+ json_escape s +:+ dquote.

(** The TypeError of JSON.stringify on a cycle, with the first line of the
    engine's message (the lines after it describe where the cycle closes). *)
Definition circular : Exn := TypeError "Converting circular structure to JSON".

(** SerializeJSONProperty without replacer or indentation.  [stack] holds the
    objects being serialized; meeting one of them again is a cycle.  The result
    [None] is JavaScript's [undefined].  As in [get_prop], an address outside
    the heap stands for an empty object. *)
Fixpoint stringify (fuel : nat) (h : Heap) (stack : list nat) (v : Val)
  : Outcome (option string) :=
  match fuel with
  | O => OutOfFuel
  | S fuel =>
      match v with
      | VUndefined => Ok None
      | VNull => Ok (Some "null")
      | VBool true => Ok (Some "true")
      | VBool false => Ok (Some "false")
      | VNum n => Ok (Some (Number_toString n))
      | VStr s => Ok (Some (json_quote s))
      | VRef a =>
          if bool_decide (a ∈ stack) then Throw circular
          else
            match h !! a with
            | Some (OArray elems) =>
                parts ← mapM (λ e, s ← stringify fuel h (a :: stack) e;
                                   Ok (default "null" s)) elems;
                Ok (Some ("[" +:+ String.concat "," parts +:+ "]"))
            | Some (OObject props) =>
                parts ← mapM (λ kv, s ← stringify fuel h (a :: stack) kv.2;
                                    Ok (match s with
                                        | Some s => [json_quote kv.1 +:+ ":" +:+ s]
                                        | None => []
                                        end)) props;
                Ok (Some ("{" +:+ String.concat "," (concat parts) +:+ "}"))
            | None => Ok (Some "{}")
            end
      end
  end.

(** An object graph has at most [length h] objects on any path without
    repetition, which bounds the recursion. *)
Definition JSON_stringify (h : Heap) (v : Val) : Outcome (option string) :=
  stringify (S (length h)) h [] v.

(** *** ToString and Array.prototype.join *)

(** The TypeError of OrdinaryToPrimitive. *)
Definition not_primitive : Exn :=
  TypeError "Cannot convert object to primitive value".

(** [String(v)], the conversion [join] applies to an element as well.  An
    object goes through OrdinaryToPrimitive with hint string: its [toString]
    is called if callable, then its [valueOf], and a TypeError is thrown when
    neither gives a primitive.  No value of the heap is callable, so an own
    property [toString] of a plain object hides Object.prototype.toString;
    [valueOf], own or inherited, gives no primitive either (the inherited one
    returns the object), and the conversion throws.  Without that property a
    plain object renders through Object.prototype.toString, and an array
    through its [join(",")], in which an element that is [undefined] or
    [null] is the empty string; V8 renders an array met again while it is
    being joined as the empty string.  [OutOfFuel] is the recursion budget
    used up. *)
Fixpoint to_string (fuel : nat) (h : Heap) (stack : list nat) (v : Val)
  : Outcome string :=
  match fuel with
  | O => OutOfFuel
  | S fuel =>
      match v with
      | VUndefined => Ok "undefined"
      | VNull => Ok "null"
      | VBool true => Ok "true"
      | VBool false => Ok "false"
      | VNum n => Ok (Number_toString n)
      | VStr s => Ok s
      | VRef a =>
          match h !! a with
          | Some (OArray elems) =>
              if bool_decide (a ∈ stack) then Ok EmptyString
              else
                parts ← mapM (λ e, if nullish e then Ok EmptyString
                                   else to_string fuel h (a :: stack) e) elems;
                Ok (String.concat "," parts)
          | Some (OObject props) =>
              match assoc "toString" props with
              | Some _ => Throw not_primitive
              | None => Ok "[object Object]"
              end
          | None => Ok "[object Object]"
          end
      end
  end.

Definition String_ (h : Heap) (v : Val) : Outcome string :=
  to_string (S (length h)) h [] v.

(** [elems.join(sep)] on a freshly built array [elems], which no value in the
    heap refers to; an element that is [undefined] or [null] is joined as the
    empty string, any other one as its [String], whose TypeError ends the
    join. *)
Definition joined_text (h : Heap) (v : Val) : Outcome string :=
  if nullish v then Ok EmptyString else String_ h v.

Definition join (h : Heap) (sep : string) (elems : list Val) : Outcome string :=
  parts ← mapM (joined_text h) elems;
  Ok (String.concat sep parts).

(* ===================================================================== *)
(** ** The result envelope and the error normalizer *)
(* ===================================================================== *)

(** A content block; [text] is [None] where the program stores [undefined]
    (the value of [JSON.stringify(undefined)]). *)
Record ContentBlock := { type : string; text : option string }.

(** The envelope of a tool result; [isError] is [None] where the program
    leaves the field out. *)
Record ToolResult := { content : list ContentBlock; isError : option bool }.

Definition text_block (s : string) : ContentBlock :=
  {| type := "text"; text := Some s |}.

(** The callback of [errors.map] in [reportAirtopErrors]. *)
Definition error_entry (h : Heap) (e : Val) : Outcome Val :=
  if negb (truthy e) then Ok (VStr "Unknown error (empty)")
  else
    match e with
    | VStr _ => Ok e
    | _ =>
        m ← get_prop h e "message";
        if nullish m then
          s ← JSON_stringify h e;
          Ok (match s with Some s => VStr s | None => VUndefined end)
        else Ok m
    end.

(** [Array.isArray(errors) && errors.length > 0], giving the elements. *)
Definition nonempty_array (h : Heap) (errors : Val) : option (list Val) :=
  match errors with
  | VRef a =>
      match h !! a with
      | Some (OArray (e :: es)) => Some (e :: es)
      | _ => None
      end
  | _ => None
  end.

(** [reportAirtopErrors]; the [console.error] of its first statement is
    guarded by a [try] and leaves no trace in the result. *)
Definition reportAirtopErrors (h : Heap) (errors : Val) : Outcome ToolResult :=
  formatted ←
    match nonempty_array h errors with
    | Some es => mapped ← mapM (error_entry h) es; join h newline mapped
    | None => String_ h errors
    end;
  Ok {| content := [text_block ("Errors from the API:" +:+ newline +:+ formatted)];
        isError := Some true |}.

(* ===================================================================== *)
(** ** The session registry and the backend *)
(* ===================================================================== *)

(** [SessionOptionsConfig]; [proxy] is [boolean | object]. *)
Record SessionOptionsConfig := {
  profileName : option string;
  proxy : option (bool + unit);
  solveCaptcha : option bool;
  timeoutMinutes : option Z;
  extensionIds : option (list string);
  baseProfileId : option string
}.

(** [SessionMetadata]; [createdAt] is the reading of the clock. *)
Record SessionMetadata := {
  meta_sessionId : Val;
  meta_profileName : option string;
  meta_createdAt : Z
}.

(** The calls the handlers make on [airtopClient], with the request each one
    builds.  [SessionsCreate None] is the call without argument,
    [SessionsCreate (Some None)] the call with the request [{}]. *)
Inductive Call :=
| SessionsCreate (request : option (option SessionOptionsConfig))
| SessionsSaveProfileOnTermination (sessionId : Val) (profile : string)
| SessionsTerminate (sessionId : string)
| WindowsCreate (sessionId url : string)
| WindowsPageQuery (sessionId windowId prompt : string)
| WindowsGetWindowInfo (sessionId windowId : string)
| WindowsPaginatedExtraction (sessionId windowId prompt : string)
    (outputSchema : option string)
| WindowsClick (sessionId windowId elementDescription : string)
    (coordinate : option (Z * Z))
| WindowsScroll (sessionId windowId : string) (scrollToElement : option string)
| WindowsType (sessionId windowId text : string)
    (elementDescription : option string)
| WindowsScrapeContent (sessionId windowId : string)
| WindowsUploadFileAndSelectInput
    (sessionId windowId elementDescription uploadFilePath : string)
| WindowsMonitor (sessionId windowId condition : string)
    (timeThresholdSeconds : Z).

(** What the awaited promise of a backend call settles to. *)
Inductive Reply :=
| Returns (v : Val)
| Fails (e : Exn).

(** The environment of the handlers: the heap holding the objects of the
    backend's responses, the backend itself (its reply to a call may depend on
    the calls made before), and the clock. *)
Record World := {
  heap : Heap;
  backend : list Call → Call → Reply;
  clock : list Call → Z
}.

(** The state the handlers share: [sessionRegistry] of [createMcpServer] (a
    [Map]), and the log of the calls made on the backend. *)
Record St := {
  sessionRegistry : gmap Val SessionMetadata;
  calls : list Call
}.

(** Handlers are computations over that state; a mutation made before an
    exception stays made. *)
Definition M (A : Type) : Type := St → Outcome A * St.

Global Instance M_ret : MRet M := λ A a st, (Ok a, st).
Global Instance M_bind : MBind M := λ A B f m st,
  match m st with
  | (Ok a, st') => f a st'
  | (Throw e, st') => (Throw e, st')
  | (OutOfFuel, st') => (OutOfFuel, st')
  end.

Definition lift {A} (o : Outcome A) : M A := λ st, (o, st).

(** [try { body } catch (err) { handler err }] *)
Definition try_catch {A} (body : M A) (handler : Exn → M A) : M A := λ st,
  match body st with
  | (Throw e, st') => handler e st'
  | r => r
  end.

(** The operations of the session registry: [sessionRegistry.set],
    [sessionRegistry.delete] and [sessionRegistry.get]. *)
Definition track (id : Val) (profile : option string) (now : Z)
    (reg : gmap Val SessionMetadata) : gmap Val SessionMetadata :=
  <[id := {| meta_sessionId := id; meta_profileName := profile;
             meta_createdAt := now |}]> reg.

Definition release (sessionId : string) (reg : gmap Val SessionMetadata)
  : gmap Val SessionMetadata :=
  delete (VStr sessionId) reg.

Definition lookup_session (sessionId : string) (reg : gmap Val SessionMetadata)
  : option SessionMetadata :=
  reg !! VStr sessionId.

Definition update_registry
    (f : gmap Val SessionMetadata → gmap Val SessionMetadata) : M unit := λ st,
  (Ok (), {| sessionRegistry := f (sessionRegistry st); calls := calls st |}).

Section Handlers.
Context (w : World).

(** [await airtopClient. ...]: the call is logged, and its reply returned
    or thrown. *)
Definition call (c : Call) : M Val := λ st,
  let st' := {| sessionRegistry := sessionRegistry st;
                calls := calls st ++ [c] |} in
  match backend w (calls st) c with
  | Returns v => (Ok v, st')
  | Fails e => (Throw e, st')
  end.

(** [new Date()] *)
Definition now : M Z := λ st, (Ok (clock w (calls st)), st).

Definition prop (v : Val) (k : string) : M Val := lift (get_prop (heap w) v k).
Definition prop_opt (v : Val) (k : string) : M Val := lift (opt_prop (heap w) v k).
Definition report (errors : Val) : M ToolResult :=
  lift (reportAirtopErrors (heap w) errors).

(** [{ content: [{ type: "text", text: JSON.stringify(v) }] }] *)
Definition json_result (v : Val) : M ToolResult :=
  s ← lift (JSON_stringify (heap w) v);
  mret {| content := [{| type := "text"; text := s |}]; isError := None |}.

(** [{ content: [{ type: "text", text: s }], isError: true }] *)
Definition error_result (s : string) : ToolResult :=
  {| content := [text_block s]; isError := Some true |}.

Definition createSession : M ToolResult :=
  session ← call (SessionsCreate None);
  errors ← prop session "errors";
  if truthy errors then report errors
  else data ← prop session "data"; json_result data.

Definition createSessionWithOptions (configuration : option SessionOptionsConfig)
  : M ToolResult :=
  session ← call (SessionsCreate (Some configuration));
  errors ← prop session "errors";
  if truthy errors then report errors
  else
    data ← prop session "data";
    id ← prop_opt data "id";
    _ ← match configuration ≫= profileName with
        | Some name =>
            if truthy id && truthy (VStr name) then
              t ← now;
              _ ← update_registry (track id (Some name) t);
              try_catch
                (_ ← call (SessionsSaveProfileOnTermination id name); mret ())
                (λ _, mret ())
            else mret ()
        | None => mret ()
        end;
    json_result data.

Definition createWindow (sessionId url : string) : M ToolResult :=
  window ← call (WindowsCreate sessionId url);
  errors ← prop window "errors";
  len ← prop_opt errors "length";
  if truthy len then report errors
  else data ← prop window "data"; json_result data.

Definition pageQuery (sessionId windowId prompt : string) : M ToolResult :=
  try_catch
    (contentSummary ← call (WindowsPageQuery sessionId windowId prompt);
     errors ← prop_opt contentSummary "errors";
     if truthy errors then report errors
     else data ← prop contentSummary "data"; json_result data)
    (λ err, mret (error_result
                   ("Internal error during pageQuery: " +:+ String_of_exn err))).

Definition terminateSession (sessionId : string) : M ToolResult :=
  _ ← update_registry (release sessionId);
  _ ← call (SessionsTerminate sessionId);
  mret {| content := [text_block "Session terminated successfully"];
          isError := None |}.

Definition getWindowInfo (sessionId windowId : string) : M ToolResult :=
  window ← call (WindowsGetWindowInfo sessionId windowId);
  errors ← prop window "errors";
  len ← prop_opt errors "length";
  if truthy len then report errors
  else data ← prop window "data"; json_result data.

Definition paginatedExtraction (sessionId windowId prompt : string)
    (outputSchema : option string) : M ToolResult :=
  data ← call (WindowsPaginatedExtraction sessionId windowId prompt outputSchema);
  json_result data.

Definition click (sessionId windowId elementDescription : string)
    (coordinate : option (Z * Z)) : M ToolResult :=
  try_catch
    (result ← call (WindowsClick sessionId windowId elementDescription coordinate);
     errors ← prop_opt result "errors";
     if truthy errors then report errors
     else data ← prop result "data"; json_result data)
    (λ err, mret (error_result
                   ("Internal error during click: " +:+ String_of_exn err))).

(** [x ? x : absent] on an optional string: the empty string is falsy. *)
Definition if_truthy (x : option string) : option string :=
  match x with
  | Some s => if truthy (VStr s) then Some s else None
  | None => None
  end.

Definition scroll (sessionId windowId : string)
    (elementDescription : option string) : M ToolResult :=
  result ← call (WindowsScroll sessionId windowId (if_truthy elementDescription));
  errors ← prop result "errors";
  if truthy errors then report errors
  else data ← prop result "data"; json_result data.

Definition type_ (sessionId windowId text : string)
    (elementDescription : option string) : M ToolResult :=
  result ← call (WindowsType sessionId windowId text (if_truthy elementDescription));
  errors ← prop result "errors";
  if truthy errors then report errors
  else data ← prop result "data"; json_result data.

Definition scrape (sessionId windowId : string) : M ToolResult :=
  try_catch
    (result ← call (WindowsScrapeContent sessionId windowId);
     errors ← prop_opt result "errors";
     if truthy errors then report errors
     else data ← prop result "data"; json_result data)
    (λ err, mret (error_result
                   ("Internal error during scrape: " +:+ String_of_exn err))).

(** The object literal serialized in [fileInput] is allocated after the
    heap of the responses. *)
Definition fileInput (sessionId windowId elementDescription filePath : string)
  : M ToolResult :=
  try_catch
    (result ← call (WindowsUploadFileAndSelectInput
                      sessionId windowId elementDescription filePath);
     fileId ← prop result "fileId";
     s ← lift (JSON_stringify
                 (heap w ++ [OObject [("fileId", fileId);
                                      ("success", VBool true);
                                      ("message", VStr "File uploaded successfully")]])
                 (VRef (length (heap w))));
     mret {| content := [{| type := "text"; text := s |}]; isError := None |})
    (λ error, mret (error_result
                     ("File upload failed: " +:+ String_of_exn error))).

Definition monitorForCondition (sessionId windowId condition : string)
    (timeoutSeconds : option Z) : M ToolResult :=
  result ← call (WindowsMonitor sessionId windowId condition
                   (default 30%Z timeoutSeconds));
  errors ← prop result "errors";
  if truthy errors then report errors
  else data ← prop result "data"; json_result data.

End Handlers.

(* ===================================================================== *)
(** ** Input schemas *)
(* ===================================================================== *)

(** Modelled from the spec: the validation of a raw input against a declared
    schema is done by the zod library, which is not among the sources.  The
    shapes below are the ones written in [mcp-server.ts]; the meaning of each
    constructor ([z.string()], [.optional()], ...) follows zod: a value of the
    wrong type is an issue, an absent optional field is accepted, unknown keys
    are dropped. *)
Inductive Parsed (A : Type) :=
| Valid (a : A)
| Invalid (issue : string).
Arguments Valid {A} a.
Arguments Invalid {A} issue.

Global Instance Parsed_ret : MRet Parsed := @Valid.
Global Instance Parsed_bind : MBind Parsed := λ A B f m,
  match m with
  | Valid a => f a
  | Invalid issue => Invalid issue
  end.

Definition Schema (A : Type) : Type := Heap → Val → Parsed A.

Module Zod.

Definition type_name (h : Heap) (v : Val) : string :=
  match v with
  | VUndefined => "undefined"
  | VNull => "null"
  | VBool _ => "boolean"
  | VNum _ => "number"
  | VStr _ => "string"
  | VRef a =>
      match h !! a with
      | Some (OArray _) => "array"
      | _ => "object"
      end
  end.

Definition mismatch {A} (expected : string) (h : Heap) (v : Val) : Parsed A :=
  match v with
  | VUndefined => Invalid "Required"
  | _ => Invalid ("Expected " +:+ expected +:+ ", received " +:+ type_name h v)
  end.

Definition string : Schema String.string := λ h v,
  match v with
  | VStr s => Valid s
  | _ => mismatch "string" h v
  end.

Definition number : Schema Z := λ h v,
  match v with
  | VNum n => Valid n
  | _ => mismatch "number" h v
  end.

Definition boolean : Schema bool := λ h v,
  match v with
  | VBool b => Valid b
  | _ => mismatch "boolean" h v
  end.

Definition optional {A} (s : Schema A) : Schema (option A) := λ h v,
  match v with
  | VUndefined => Valid None
  | _ => a ← s h v; Valid (Some a)
  end.

(** [s.default(d)]: an absent input is replaced by [d] before [s] runs. *)
Definition default_ {A} (s : Schema A) (d : Val) : Schema A := λ h v,
  match v with
  | VUndefined => s h d
  | _ => s h v
  end.

Definition array {A} (s : Schema A) : Schema (list A) := λ h v,
  match v with
  | VRef a =>
      match h !! a with
      | Some (OArray elems) => mapM (s h) elems
      | _ => mismatch "array" h v
      end
  | _ => mismatch "array" h v
  end.

Definition union {A B} (s1 : Schema A) (s2 : Schema B) : Schema (A + B) := λ h v,
  match s1 h v with
  | Valid a => Valid (inl a)
  | Invalid _ =>
      match s2 h v with
      | Valid b => Valid (inr b)
      | Invalid _ => Invalid "Invalid input"
      end
  end.

(** [z.object(shape)]: the input must be an object that is not an array;
    [fields] parses the keys of the shape out of its properties. *)
Definition object {A} (fields : Heap → list (String.string * Val) → Parsed A)
  : Schema A := λ h v,
  match v with
  | VRef a =>
      match h !! a with
      | Some (OObject props) => fields h props
      | _ => mismatch "object" h v
      end
  | _ => mismatch "object" h v
  end.

(** The entry [key: s] of a shape. *)
Definition field {A} (key : String.string) (s : Schema A)
    (h : Heap) (props : list (String.string * Val)) : Parsed A :=
  match s h (default VUndefined (assoc key props)) with
  | Valid a => Valid a
  | Invalid issue => Invalid (key +:+ ": " +:+ issue)
  end.

End Zod.

(** The shapes passed to [server.tool]. *)
Definition configuration_schema : Schema SessionOptionsConfig :=
  Zod.object (λ h o,
    profileName ← Zod.field "profileName" (Zod.optional Zod.string) h o;
    proxy ← Zod.field "proxy"
               (Zod.optional (Zod.union Zod.boolean (Zod.object (λ _ _, Valid ())))) h o;
    solveCaptcha ← Zod.field "solveCaptcha" (Zod.optional Zod.boolean) h o;
    timeoutMinutes ← Zod.field "timeoutMinutes" (Zod.optional Zod.number) h o;
    extensionIds ← Zod.field "extensionIds" (Zod.optional (Zod.array Zod.string)) h o;
    baseProfileId ← Zod.field "baseProfileId" (Zod.optional Zod.string) h o;
    Valid {| profileName := profileName; proxy := proxy;
             solveCaptcha := solveCaptcha; timeoutMinutes := timeoutMinutes;
             extensionIds := extensionIds; baseProfileId := baseProfileId |}).

Definition createSessionWithOptions_schema : Schema (option SessionOptionsConfig) :=
  Zod.object (Zod.field "configuration" (Zod.optional configuration_schema)).

Definition createWindow_schema : Schema (string * string) :=
  Zod.object (λ h o,
    sessionId ← Zod.field "sessionId" Zod.string h o;
    url ← Zod.field "url" Zod.string h o;
    Valid (sessionId, url)).

Definition pageQuery_schema : Schema (string * string * string) :=
  Zod.object (λ h o,
    sessionId ← Zod.field "sessionId" Zod.string h o;
    windowId ← Zod.field "windowId" Zod.string h o;
    prompt ← Zod.field "prompt" Zod.string h o;
    Valid (sessionId, windowId, prompt)).

Definition terminateSession_schema : Schema string :=
  Zod.object (Zod.field "sessionId" Zod.string).

Definition getWindowInfo_schema : Schema (string * string) :=
  Zod.object (λ h o,
    sessionId ← Zod.field "sessionId" Zod.string h o;
    windowId ← Zod.field "windowId" Zod.string h o;
    Valid (sessionId, windowId)).

Definition paginatedExtraction_schema
  : Schema (string * string * string * option string) :=
  Zod.object (λ h o,
    sessionId ← Zod.field "sessionId" Zod.string h o;
    windowId ← Zod.field "windowId" Zod.string h o;
    prompt ← Zod.field "prompt" Zod.string h o;
    outputSchema ← Zod.field "outputSchema" (Zod.optional Zod.string) h o;
    Valid (sessionId, windowId, prompt, outputSchema)).

Definition coordinate_schema : Schema (Z * Z) :=
  Zod.object (λ h o,
    x ← Zod.field "x" Zod.number h o;
    y ← Zod.field "y" Zod.number h o;
    Valid (x, y)).

Definition click_schema : Schema (string * string * string * option (Z * Z)) :=
  Zod.object (λ h o,
    sessionId ← Zod.field "sessionId" Zod.string h o;
    windowId ← Zod.field "windowId" Zod.string h o;
    elementDescription ← Zod.field "elementDescription" Zod.string h o;
    coordinate ← Zod.field "coordinate" (Zod.optional coordinate_schema) h o;
    Valid (sessionId, windowId, elementDescription, coordinate)).

Definition scroll_schema : Schema (string * string * option string) :=
  Zod.object (λ h o,
    sessionId ← Zod.field "sessionId" Zod.string h o;
    windowId ← Zod.field "windowId" Zod.string h o;
    elementDescription ← Zod.field "elementDescription" (Zod.optional Zod.string) h o;
    Valid (sessionId, windowId, elementDescription)).

Definition type_schema : Schema (string * string * string * option string) :=
  Zod.object (λ h o,
    sessionId ← Zod.field "sessionId" Zod.string h o;
    windowId ← Zod.field "windowId" Zod.string h o;
    text ← Zod.field "text" Zod.string h o;
    elementDescription ← Zod.field "elementDescription" (Zod.optional Zod.string) h o;
    Valid (sessionId, windowId, text, elementDescription)).

Definition scrape_schema : Schema (string * string) :=
  Zod.object (λ h o,
    sessionId ← Zod.field "sessionId" Zod.string h o;
    windowId ← Zod.field "windowId" Zod.string h o;
    Valid (sessionId, windowId)).

Definition fileInput_schema : Schema (string * string * string * string) :=
  Zod.object (λ h o,
    sessionId ← Zod.field "sessionId" Zod.string h o;
    windowId ← Zod.field "windowId" Zod.string h o;
    elementDescription ← Zod.field "elementDescription" Zod.string h o;
    filePath ← Zod.field "filePath" Zod.string h o;
    Valid (sessionId, windowId, elementDescription, filePath)).

Definition monitorForCondition_schema
  : Schema (string * string * string * option Z) :=
  Zod.object (λ h o,
    sessionId ← Zod.field "sessionId" Zod.string h o;
    windowId ← Zod.field "windowId" Zod.string h o;
    condition ← Zod.field "condition" Zod.string h o;
    timeoutSeconds ← Zod.field "timeoutSeconds"
                       (Zod.default_ (Zod.optional Zod.number) (VNum 30)) h o;
    Valid (sessionId, windowId, condition, timeoutSeconds)).

(* ===================================================================== *)
(** ** The tool registry *)
(* ===================================================================== *)

(** A registration: [server.tool(name, description, cb)] or
    [server.tool(name, description, shape, cb)]. *)
Inductive Tool :=
| ToolNoArgs (name description : string) (cb : M ToolResult)
| ToolWithArgs (name description : string) {Args : Type}
    (inputSchema : Schema Args) (cb : Args → M ToolResult).

Definition tool_name (t : Tool) : string :=
  match t with
  | ToolNoArgs name _ _ => name
  | ToolWithArgs name _ _ _ => name
  end.

Definition has_schema (t : Tool) : bool :=
  match t with
  | ToolNoArgs _ _ _ => false
  | ToolWithArgs _ _ _ _ => true
  end.

(** The registrations of [createMcpServer], in order. *)
Definition createSession_tool (w : World) : Tool :=
  ToolNoArgs "createSession" "Create a new Airtop browser session"
    (createSession w).

Definition createSessionWithOptions_tool (w : World) : Tool :=
  ToolWithArgs "createSessionWithOptions"
    "Create a new Airtop browser session with custom configuration options"
    createSessionWithOptions_schema
    (createSessionWithOptions w).

Definition createWindow_tool (w : World) : Tool :=
  ToolWithArgs "createWindow" "Create a new browser window in the session"
    createWindow_schema
    (λ '(sessionId, url), createWindow w sessionId url).

Definition pageQuery_tool (w : World) : Tool :=
  ToolWithArgs "pageQuery" "Query the current page content using AI"
    pageQuery_schema
    (λ '(sessionId, windowId, prompt), pageQuery w sessionId windowId prompt).

Definition terminateSession_tool (w : World) : Tool :=
  ToolWithArgs "terminateSession" "Terminate an Airtop browser session"
    terminateSession_schema
    (terminateSession w).

Definition getWindowInfo_tool (w : World) : Tool :=
  ToolWithArgs "getWindowInfo"
    "Get information about a browser window, including a live view URL,
     which lets the user use and interact with the window. Use this to get a URL to share with the user,
     so they can log into a web site."
    getWindowInfo_schema
    (λ '(sessionId, windowId), getWindowInfo w sessionId windowId).

Definition paginatedExtraction_tool (w : World) : Tool :=
  ToolWithArgs "paginatedExtraction" "Extract data from a paginated list"
    paginatedExtraction_schema
    (λ '(sessionId, windowId, prompt, outputSchema),
       paginatedExtraction w sessionId windowId prompt outputSchema).

Definition click_tool (w : World) : Tool :=
  ToolWithArgs "click"
    "Click on an element in the browser window using AI description"
    click_schema
    (λ '(sessionId, windowId, elementDescription, coordinate),
       click w sessionId windowId elementDescription coordinate).

Definition scroll_tool (w : World) : Tool :=
  ToolWithArgs "scroll" "Scroll in the browser window"
    scroll_schema
    (λ '(sessionId, windowId, elementDescription),
       scroll w sessionId windowId elementDescription).

Definition type_tool (w : World) : Tool :=
  ToolWithArgs "type" "Type text into an element in the browser window"
    type_schema
    (λ '(sessionId, windowId, text, elementDescription),
       type_ w sessionId windowId text elementDescription).

Definition scrape_tool (w : World) : Tool :=
  ToolWithArgs "scrape" "Scrape/extract content from the browser window"
    scrape_schema
    (λ '(sessionId, windowId), scrape w sessionId windowId).

Definition fileInput_tool (w : World) : Tool :=
  ToolWithArgs "fileInput"
    "Upload a file to a file input element in the browser window"
    fileInput_schema
    (λ '(sessionId, windowId, elementDescription, filePath),
       fileInput w sessionId windowId elementDescription filePath).

Definition monitorForCondition_tool (w : World) : Tool :=
  ToolWithArgs "monitorForCondition"
    "Monitor the browser window for specific conditions or changes"
    monitorForCondition_schema
    (λ '(sessionId, windowId, condition, timeoutSeconds),
       monitorForCondition w sessionId windowId condition timeoutSeconds).

Definition tools (w : World) : list Tool := [
  createSession_tool w;
  createSessionWithOptions_tool w;
  createWindow_tool w;
  pageQuery_tool w;
  terminateSession_tool w;
  getWindowInfo_tool w;
  paginatedExtraction_tool w;
  click_tool w;
  scroll_tool w;
  type_tool w;
  scrape_tool w;
  fileInput_tool w;
  monitorForCondition_tool w
].

(** Modelled from the spec: the dispatch of an invocation ([invoke] of the
    Tool Registry) is done by the MCP SDK's [McpServer], which is not among
    the sources.  Following the spec: an unregistered name fails with
    UnknownTool; a raw input that violates the declared schema is answered
    with an error result carrying the validation message, without calling
    the handler; an exception raised by the handler is caught and converted
    into an error result. *)
Definition guarded (cb : M ToolResult) : M ToolResult :=
  try_catch cb (λ e, mret (error_result (String_of_exn e))).

(** Modelled from the spec: steps 2 and 3 of [invoke], on the registration
    found.  The SDK's code for them is not among the sources. *)
Definition dispatch (h : Heap) (t : Tool) (rawInput : Val) : M ToolResult :=
  match t with
  | ToolNoArgs _ _ cb => guarded cb
  | ToolWithArgs name _ inputSchema cb =>
      match inputSchema h rawInput with
      | Invalid issue =>
          mret (error_result
                  ("Invalid arguments for tool " +:+ name +:+ ": " +:+ issue))
      | Valid args => guarded (cb args)
      end
  end.

(** Modelled from the spec: [invoke(name, rawInput)] of the Tool Registry
    (the SDK's request handler, not among the sources); step 1 is the lookup
    by name. *)
Definition invoke (w : World) (name : string) (rawInput : Val) : M ToolResult :=
  match find (λ t, String.eqb (tool_name t) name) (tools w) with
  | Some t => dispatch (heap w) t rawInput
  | None => lift (Throw (UnknownTool name))
  end.

(** Whether a raw input satisfies the schema of a tool (a tool registered
    without schema accepts any), and what its handler does on the parsed
    input. *)
Definition accepts (h : Heap) (t : Tool) (rawInput : Val) : bool :=
  match t with
  | ToolNoArgs _ _ _ => true
  | ToolWithArgs _ _ inputSchema _ =>
      match inputSchema h rawInput with
      | Valid _ => true
      | Invalid _ => false
      end
  end.

Definition run_handler (h : Heap) (t : Tool) (rawInput : Val) : option (M ToolResult) :=
  match t with
  | ToolNoArgs _ _ cb => Some cb
  | ToolWithArgs _ _ inputSchema cb =>
      match inputSchema h rawInput with
      | Valid args => Some (cb args)
      | Invalid _ => None
      end
  end.

(** The same registration with another callback. *)
Definition with_callback (t : Tool) (cb' : M ToolResult) : Tool :=
  match t with
  | ToolNoArgs name description _ => ToolNoArgs name description cb'
  | ToolWithArgs name description inputSchema _ =>
      ToolWithArgs name description inputSchema (λ _, cb')
  end.

(* ===================================================================== *)
(** ** The entry point and the transport gateway *)
(* ===================================================================== *)

Definition PORT : Z := 3456.
Definition FALLBACK_VERSION : string := "1.0.3".

(** [x || d] on an environment variable: unset and empty are both falsy. *)
Definition or_else (x : option string) (d : string) : string :=
  match x with
  | Some s => if truthy (VStr s) then s else d
  | None => d
  end.

Definition help_text (version : string) : string :=
  "
Airtop MCP Server v" +:+ version +:+ "

A Model Context Protocol (MCP) server providing browser automation tools through Airtop.

Usage:
  airtop-mcp [options]

Options:
  --help, -h     Show this help message
  --version, -v  Show version information
  --listen       Start as HTTP server (default: stdio mode)

Environment Variables:
  AIRTOP_API_KEY  Required API key for Airtop service

For more information, visit: https://github.com/your-org/airtop-mcp
".

(** How a run of [main] ends: [process.exit(code)], a rejected promise, the
    HTTP server listening ([return appServer]), or the stdio transport
    connected ([return null]). *)
Inductive MainOutcome :=
| ProcessExit (code : Z)
| MainRejects (e : Exn)
| MainListens (port : Z)
| MainStdio.

(** [main], on the arguments and the environment of the process (after
    dotenvx has loaded it); the first component is what it prints with
    [console.log]. *)
Definition main (argv : list string) (env : gmap string string)
  : list string * MainOutcome :=
  if bool_decide ("--help" ∈ argv) || bool_decide ("-h" ∈ argv) then
    ([help_text (or_else (env !! "npm_package_version") FALLBACK_VERSION)],
     ProcessExit 0)
  else if bool_decide ("--version" ∈ argv) || bool_decide ("-v" ∈ argv) then
    ([or_else (env !! "npm_package_version") FALLBACK_VERSION], ProcessExit 0)
  else
    match env !! "AIRTOP_API_KEY" with
    | Some apiKey =>
        if truthy (VStr apiKey) then
          if bool_decide ("--listen" ∈ argv) then
            (["MCP about to start on port " +:+ Number_toString PORT],
             MainListens PORT)
          else ([], MainStdio)
        else
          ([], MainRejects (Raised "Error: AIRTOP_API_KEY environment variable is required"))
    | None =>
        ([], MainRejects (Raised "Error: AIRTOP_API_KEY environment variable is required"))
    end.

(** What becomes of the process: it exits with a code, or it keeps serving,
    over HTTP on a port or over stdio. *)
Inductive ProcessFate :=
| Exits (code : Z)
| Serves (port : option Z).

(** The module's last statement, [main().catch(console.error)]: a rejection
    is printed and thereby handled; nothing is pending then and
    [process.exitCode] was never set, so Node ends the process with code 0. *)
Definition run_process (argv : list string) (env : gmap string string)
  : ProcessFate :=
  match (main argv env).2 with
  | ProcessExit code => Exits code
  | MainRejects _ => Exits 0
  | MainListens port => Serves (Some port)
  | MainStdio => Serves None
  end.

(** An [SSEServerTransport]: its [sessionId] and the response stream it
    writes to. *)
Record SSEServerTransport := {
  transport_sessionId : string;
  transport_res : nat
}.

Global Instance SSEServerTransport_eq_dec : EqDecision SSEServerTransport.
Proof. solve_decision. Defined.

(** [transports] is a plain object: its own properties are a finite map, and
    a key that is not its own is looked up in [Object.prototype]. *)
Definition Object_prototype_keys : list string := [
  "constructor"; "__defineGetter__"; "__defineSetter__"; "hasOwnProperty";
  "__lookupGetter__"; "__lookupSetter__"; "isPrototypeOf";
  "propertyIsEnumerable"; "toString"; "valueOf"; "__proto__"; "toLocaleString"
].

Inductive Lookup :=
| Own (t : SSEServerTransport)
| Inherited (key : string)
| Missing.

(** [transports[k]] *)
Definition transports_get (transports : gmap string SSEServerTransport) (k : string)
  : Lookup :=
  match transports !! k with
  | Some t => Own t
  | None => if bool_decide (k ∈ Object_prototype_keys) then Inherited k else Missing
  end.

(** [transports[k] = t].  Assigning to the key [__proto__] would rebind the
    prototype instead of adding a property; that is outside this model
    ([None]). *)
Definition transports_set (transports : gmap string SSEServerTransport)
    (k : string) (t : SSEServerTransport)
  : option (gmap string SSEServerTransport) :=
  if String.eqb k "__proto__" then None else Some (<[k := t]> transports).

(** The handler of [GET /sse], up to [server.connect], and the listener it
    installs for the [close] event of the response. *)
Definition get_sse (t : SSEServerTransport)
    (transports : gmap string SSEServerTransport)
  : option (gmap string SSEServerTransport) :=
  transports_set transports (transport_sessionId t) t.

Definition on_close (t : SSEServerTransport)
    (transports : gmap string SSEServerTransport)
  : gmap string SSEServerTransport :=
  delete (transport_sessionId t) transports.

(** What the handler of [POST /messages] does with a request. *)
Inductive PostResult :=
| HandlePostMessage (t : SSEServerTransport)
| Status400 (body : string)
| PostThrows (e : Exn).

(** [app.post("/messages", ...)]; [sessionId] is the query parameter, and an
    absent one indexes [transports] as the key [undefined].  A value found on
    the prototype is truthy and has no [handlePostMessage]. *)
Definition post_messages (transports : gmap string SSEServerTransport)
    (sessionId : option string) : PostResult :=
  match transports_get transports (default "undefined" sessionId) with
  | Own transport => HandlePostMessage transport
  | Inherited _ => PostThrows (TypeError "transport.handlePostMessage is not a function")
  | Missing => Status400 "No transport found for sessionId"
  end.

(** The life of the connection registry: streams opened and closed. *)
Inductive Event :=
| Opened (t : SSEServerTransport)
| Closed (t : SSEServerTransport).

Fixpoint run_events (evs : list Event) (transports : gmap string SSEServerTransport)
  : option (gmap string SSEServerTransport) :=
  match evs with
  | [] => Some transports
  | Opened t :: evs => transports' ← get_sse t transports; run_events evs transports'
  | Closed t :: evs => run_events evs (on_close t transports)
  end.

Definition opened (evs : list Event) : list SSEServerTransport :=
  omap (λ ev, match ev with Opened t => Some t | Closed _ => None end) evs.

Definition closed (evs : list Event) : list SSEServerTransport :=
  omap (λ ev, match ev with Closed t => Some t | Opened _ => None end) evs.

(** Modelled from the spec: the identifier of a connection is generated by
    the SDK's [SSEServerTransport], which is not among the sources, and is
    fresh (a random UUID; in particular it is not the key [__proto__]).

    A history the gateway can go through: every stream is opened under such
    an identifier, and a close event is that of a stream that is open.
    [used] are the identifiers drawn so far, [live] the open streams. *)
Fixpoint orderly (used : list string) (live : list SSEServerTransport)
    (evs : list Event) : bool :=
  match evs with
  | [] => true
  | Opened t :: evs =>
      negb (String.eqb (transport_sessionId t) "__proto__")
      && bool_decide (transport_sessionId t ∉ used)
      && orderly (transport_sessionId t :: used) (t :: live) evs
  | Closed t :: evs =>
      bool_decide (t ∈ live)
      && orderly used (filter (λ t', t' ≠ t) live) evs
  end.

(* ===================================================================== *)
(** ** Notions used in the statements *)
(* ===================================================================== *)

(** The error normalizer in the words of its contract.  An element exposes a
    message when reading its [message] property gives a value (neither
    [undefined] nor [null]); the text of a message is its string form, the
    message itself when it is a string. *)
Definition exposed_message (h : Heap) (e : Val) : option Val :=
  match get_prop h e "message" with
  | Ok m => if nullish m then None else Some m
  | _ => None
  end.



(** The objects a value or an object refers to directly. *)
Definition val_refs (v : Val) : list nat :=
  match v with
  | VRef a => [a]
  | _ => []
  end.

Definition obj_refs (o : Obj) : list nat :=
  match o with
  | OArray elems => elems ≫= val_refs
  | OObject props => props ≫= (λ kv, val_refs kv.2)
  end.

Definition points_to (h : Heap) (a b : nat) : Prop :=
  ∃ o, h !! a = Some o ∧ b ∈ obj_refs o.

(** The objects a value reaches, and a value free of reference cycles: no
    object it reaches can reach itself.  The values decoded from a JSON text
    are of this kind. *)
Definition reachable (h : Heap) (v : Val) (b : nat) : Prop :=
  ∃ a, a ∈ val_refs v ∧ rtc (points_to h) a b.



(** A value whose objects all convert to a string: none of the objects it
    reaches has a property [toString] of its own. *)
Definition convertible (h : Heap) (v : Val) : Prop :=
  ∀ b props, reachable h v b → h !! b = Some (OObject props) →
             assoc "toString" props = None.

(** An outcome that is not the recursion budget used up, and one that is not
    an exception. *)
Definition settled {A} (o : Outcome A) : Prop :=
  match o with
  | OutOfFuel => False
  | _ => True
  end.

Definition unthrown {A} (o : Outcome A) : Prop :=
  match o with
  | Throw _ => False
  | _ => True
  end.

(** A handler that always ends, and a handler whose every result is an
    envelope with content. *)
Definition ends {A} (m : M A) : Prop :=
  ∀ st, settled (m st).1.

Definition delivers (m : M ToolResult) : Prop :=
  ∀ st, match (m st).1 with
        | Ok r => content r ≠ []
        | Throw _ => True
        | OutOfFuel => False
        end.

(** The connection registry agrees with the open streams, and holds only
    identifiers that were drawn. *)
Definition agrees (used : list string) (live : list SSEServerTransport)
    (reg : gmap string SSEServerTransport) : Prop :=
  (∀ t, t ∈ live → reg !! transport_sessionId t = Some t)
  ∧ (∀ k, is_Some (reg !! k) → k ∈ used).




(** Example runs: the state at start; a backend that cannot be reached, with
    the raw inputs [{sessionId: "s1", windowId: "w1"}] at address 0 and
    [{sessionId: 5}] at address 1; three streams and a history of theirs; a
    process started with a [PORT] variable. *)
Definition st_start : St := {| sessionRegistry := ∅; calls := [] |}.

Definition world_unreachable : World :=
  {| heap := [OObject [("sessionId", VStr "s1"); ("windowId", VStr "w1")];
              OObject [("sessionId", VNum 5)]];
     backend := λ _ _, Fails (Raised "Error: connect ECONNREFUSED");
     clock := λ _, 0%Z |}.

Definition stream_a : SSEServerTransport :=
  {| transport_sessionId := "3f2b8c1e-5d4a-4f6b-9c7d-0e1f2a3b4c5d";
     transport_res := 1 |}.

Definition stream_b : SSEServerTransport :=
  {| transport_sessionId := "a0b1c2d3-e4f5-4a6b-8c7d-9e0f1a2b3c4d";
     transport_res := 2 |}.

Definition stream_c : SSEServerTransport :=
  {| transport_sessionId := "00000000-1111-4222-8333-444444444444";
     transport_res := 3 |}.

Definition history_abc : list Event :=
  [Opened stream_a; Opened stream_b; Closed stream_a; Opened stream_c].

Definition argv_plain : list string := ["node"; "dist/server.js"].
Definition argv_listen : list string := ["node"; "dist/server.js"; "--listen"].

Definition env_with_port : gmap string string :=
  {["AIRTOP_API_KEY" := "key"; "PORT" := "8080"]}.

(* ===================================================================== *)
(** ** The launcher and the earlier normalizer *)
(* ===================================================================== *)

(** The launcher script [bin/airtop-mcp]: it spawns [node serverPath] with no
    further argument, so the child's [process.argv] is the executable and the
    script; the child's environment is the launcher's with [NODE_ENV] set. *)
Definition launcher_argv (execPath serverPath : string) : list string :=
  [execPath; serverPath].

Definition launcher_env (env : gmap string string) : gmap string string :=
  <["NODE_ENV" := "production"]> env.

(** What the launcher hears from the child: [error] (it could not be
    started), or [exit] with a code, which is [null] ([None]) when a signal
    ended the child. *)
Inductive ChildEvent :=
| ChildError (err : Exn)
| ChildExit (code : option Z).

(** The exit code of the launcher: [process.exit(1)] on [error],
    [process.exit(code ?? 0)] on [exit]. *)
Definition launcher_exit (ev : ChildEvent) : Z :=
  match ev with
  | ChildError _ => 1%Z
  | ChildExit code => default 0%Z code
  end.

(** [reportAirtopErrors] as the earlier, single-file server has it:
    [errors.map((e) => e.message ?? `Unknown error: ${JSON.stringify(e)}`)
    .join("\n")] under the same banner, with no guard on [errors] or on its
    elements. *)
Definition inline_entry (h : Heap) (e : Val) : Outcome Val :=
  m ← get_prop h e "message";
  if nullish m then
    s ← JSON_stringify h e;
    Ok (VStr ("Unknown error: " +:+ default "undefined" s))
  else Ok m.

Definition reportAirtopErrors_inline (h : Heap) (errors : Val) : Outcome ToolResult :=
  match errors with
  | VUndefined =>
      Throw (TypeError "Cannot read properties of undefined (reading 'map')")
  | VNull =>
      Throw (TypeError "Cannot read properties of null (reading 'map')")
  | VRef a =>
      match h !! a with
      | Some (OArray es) =>
          mapped ← mapM (inline_entry h) es;
          formatted ← join h newline mapped;
          Ok {| content := [text_block ("Errors from the API:" +:+ newline
                                          +:+ formatted)];
                isError := Some true |}
      | _ => Throw (TypeError "errors.map is not a function")
      end
  | _ => Throw (TypeError "errors.map is not a function")
  end.

(* ===================================================================== *)
(** ** Further notions used in the statements *)
(* ===================================================================== *)

(** A computation that makes exactly the call [c] on the backend and leaves
    the session registry alone, however it ends. *)
Definition calls_once {A} (c : Call) (m : M A) : Prop :=
  ∀ st, sessionRegistry (m st).2 = sessionRegistry st
        ∧ calls (m st).2 = (calls st ++ [c])%list.

(** A computation that leaves the state as it is. *)
Definition stateless {A} (m : M A) : Prop :=
  ∀ st, (m st).2 = st.

(** An envelope with exactly one block, of type text, whose [isError] is
    absent or true. *)
Definition one_text_block (r : ToolResult) : Prop :=
  (∃ s, content r = [{| type := "text"; text := s |}])
  ∧ (isError r = None ∨ isError r = Some true).

Definition shapely (m : M ToolResult) : Prop :=
  ∀ st r, (m st).1 = Ok r → one_text_block r.



(** The arguments [main] looks for. *)
Definition main_flags : list string :=
  ["--help"; "-h"; "--version"; "-v"; "--listen"].

(** The flags of [main], and whether the credential is set. *)
Definition info_flag (argv : list string) : bool :=
  bool_decide ("--help" ∈ argv) || bool_decide ("-h" ∈ argv)
  || bool_decide ("--version" ∈ argv) || bool_decide ("-v" ∈ argv).

Definition has_credential (env : gmap string string) : bool :=
  match env !! "AIRTOP_API_KEY" with
  | Some apiKey => truthy (VStr apiKey)
  | None => false
  end.

(** The elements the normalizer neither serializes nor converts: the falsy
    ones, the strings, and those exposing a message that is a primitive value
    (a string, as the declared type has it, a number or a boolean). *)
Definition plain_entry (h : Heap) (e : Val) : Prop :=
  truthy e = false ∨ (∃ s, e = VStr s)
  ∨ (∃ m, exposed_message h e = Some m ∧ val_refs m = []).

(** Further examples: an object with a message that refers to itself, in an
    array; a backend whose every reply is the object at address 0,
    [{errors: [], data: {id: "w1"}}], with the raw input
    [{sessionId: "s1", windowId: "w1"}] at address 3; a backend that creates
    the session [s9] and fails to register the profile. *)
Definition heap_shielded : Heap :=
  [OObject [("message", VStr "quota exceeded"); ("self", VRef 0)];
   OArray [VRef 0]].

Definition world_empty_errors : World :=
  {| heap := [OObject [("errors", VRef 1); ("data", VRef 2)];
              OArray [];
              OObject [("id", VStr "w1")];
              OObject [("sessionId", VStr "s1"); ("windowId", VStr "w1")]];
     backend := λ _ _, Returns (VRef 0);
     clock := λ _, 0%Z |}.

Definition world_profile : World :=
  {| heap := [OObject [("data", VRef 1)]; OObject [("id", VStr "s9")]];
     backend := λ _ c, match c with
                       | SessionsCreate _ => Returns (VRef 0)
                       | _ => Fails (Raised "Error: profile service down")
                       end;
     clock := λ _, 7%Z |}.

Definition config_work : SessionOptionsConfig :=
  {| profileName := Some "work"; proxy := None; solveCaptcha := None;
     timeoutMinutes := None; extensionIds := None; baseProfileId := None |}.

(* ===================================================================== *)
(** ** Facts about outcomes and the recursion budget *)
(* ===================================================================== *)

Section OutcomeFacts.
Context {A B : Type}.
Implicit Types (m : Outcome A) (f : A → Outcome B).

Lemma bind_settled m f :
  settled m → (∀ a, m = Ok a → settled (f a)) → settled (m ≫= f).
Proof. destruct m; simpl; auto. Qed.

Lemma bind_unthrown m f :
  unthrown m → (∀ a, m = Ok a → unthrown (f a)) → unthrown (m ≫= f).
Proof. destruct m; simpl; auto. Qed.

Lemma mapM_settled f l :
  Forall (λ x, settled (f x)) l → settled (mapM f l).
Proof.
  induction 1 as [|x l Hx _ IH]; simpl; [done|].
  destruct (f x); simpl in *; [|done..].
  by destruct (mapM f l).
Qed.

Lemma mapM_unthrown f l :
  Forall (λ x, unthrown (f x)) l → unthrown (mapM f l).
Proof.
  induction 1 as [|x l Hx _ IH]; simpl; [done|].
  destruct (f x); simpl in *; [|done..].
  by destruct (mapM f l).
Qed.

Lemma settled_unthrown_Ok m : settled m → unthrown m → ∃ a, m = Ok a.
Proof. destruct m; simpl; by eauto. Qed.

End OutcomeFacts.

Lemma bind_Ok {A B} (m : Outcome A) (f : A → Outcome B) b :
  m ≫= f = Ok b ↔ ∃ a, m = Ok a ∧ f a = Ok b.
Proof.
  destruct m as [a| |]; simpl; split; try done.
  - by exists a.
  - by intros (a' & [= <-] & Hb).
  - by intros (a' & [=] & _).
  - by intros (a' & [=] & _).
Qed.

Lemma mapM_cons_Ok {A B} (f : A → Outcome B) x l ys :
  mapM f (x :: l) = Ok ys
  ↔ ∃ y ys', f x = Ok y ∧ mapM f l = Ok ys' ∧ ys = y :: ys'.
Proof.
  change (mapM f (x :: l)) with (f x ≫= λ y, mapM f l ≫= λ k, mret (y :: k)).
  rewrite bind_Ok. split.
  - intros (y & Hy & Hrest). apply bind_Ok in Hrest as (ys' & Hys' & [= <-]).
    by exists y, ys'.
  - intros (y & ys' & Hy & Hys' & ->). exists y. split; [done|].
    apply bind_Ok. by exists ys'.
Qed.




(** Distinct addresses of the heap are no more than its objects. *)
Lemma stack_bound (h : Heap) (stack : list nat) :
  NoDup stack → Forall (λ a, a < length h) stack → length stack ≤ length h.
Proof.
  intros Hnd Hlt.
  rewrite <- (length_seq (length h) 0).
  apply submseteq_length, NoDup_submseteq; [done|].
  intros a Ha. apply elem_of_seq.
  rewrite Forall_forall in Hlt. specialize (Hlt a Ha). lia.
Qed.

Lemma stringify_settled (h : Heap) fuel stack v :
  NoDup stack → Forall (λ a, a < length h) stack →
  length h < fuel + length stack →
  settled (stringify fuel h stack v).
Proof.
  revert stack v. induction fuel as [|fuel IH]; intros stack v Hnd Hlt Hfuel.
  - pose proof (stack_bound h stack Hnd Hlt). simpl in Hfuel. lia.
  - destruct v as [| |[]| | |a]; simpl; try done.
    case_bool_decide as Hin; [done|].
    assert (∀ o, h !! a = Some o → ∀ e, settled (stringify fuel h (a :: stack) e))
      as Hrec.
    { intros o Ho e. apply IH.
      - by constructor.
      - constructor; [by eapply lookup_lt_Some|done].
      - simpl. lia. }
    destruct (h !! a) as [[elems|props]|] eqn:Ha; [| |done].
    + apply bind_settled; [|done].
      apply mapM_settled, Forall_forall. intros e _.
      apply bind_settled; [by eapply Hrec|done].
    + apply bind_settled; [|done].
      apply mapM_settled, Forall_forall. intros e _.
      apply bind_settled; [by eapply Hrec|done].
Qed.

Lemma JSON_stringify_settled (h : Heap) v : settled (JSON_stringify h v).
Proof.
  apply stringify_settled; [constructor|constructor|simpl; lia].
Qed.

Lemma to_string_settled (h : Heap) fuel stack v :
  NoDup stack → Forall (λ a, a < length h) stack →
  length h < fuel + length stack →
  settled (to_string fuel h stack v).
Proof.
  revert stack v. induction fuel as [|fuel IH]; intros stack v Hnd Hlt Hfuel.
  - pose proof (stack_bound h stack Hnd Hlt). simpl in Hfuel. lia.
  - destruct v as [| |[]| | |a]; simpl; try done.
    destruct (h !! a) as [[elems|props]|] eqn:Ha;
      [|by destruct (assoc "toString" props)|done].
    case_bool_decide as Hin; [done|].
    apply bind_settled; [|done].
    apply mapM_settled, Forall_forall. intros e _.
    destruct (nullish e); [done|].
    apply IH.
    + by constructor.
    + constructor; [by eapply lookup_lt_Some|done].
    + simpl. lia.
Qed.

Lemma String_settled (h : Heap) v : settled (String_ h v).
Proof.
  apply to_string_settled; [constructor|constructor|simpl; lia].
Qed.

Lemma joined_text_settled (h : Heap) v : settled (joined_text h v).
Proof.
  unfold joined_text. destruct (nullish v); [done|apply String_settled].
Qed.

Lemma join_settled (h : Heap) sep elems : settled (join h sep elems).
Proof.
  unfold join. apply bind_settled; [|done].
  apply mapM_settled, Forall_forall. intros e _. apply joined_text_settled.
Qed.

(** The conversion to a string throws on no value whose objects keep the
    inherited [toString]. *)
Lemma to_string_unthrown (h : Heap) (sound : nat → Prop) fuel stack v :
  (∀ a b, sound a → points_to h a b → sound b) →
  (∀ a props, sound a → h !! a = Some (OObject props) →
              assoc "toString" props = None) →
  (∀ b, b ∈ val_refs v → sound b) →
  unthrown (to_string fuel h stack v).
Proof.
  intros Hclosed Hsound. revert stack v.
  induction fuel as [|fuel IH]; intros stack v Hv; [done|].
  destruct v as [| |[]| | |a]; simpl; try done.
  assert (sound a) as Ha_sound by (apply Hv; simpl; apply list_elem_of_here).
  destruct (h !! a) as [[elems|props]|] eqn:Ha; [| |done].
  - case_bool_decide as Hin; [done|].
    apply bind_unthrown; [|done].
    apply mapM_unthrown, Forall_forall. intros e He.
    destruct (nullish e); [done|].
    apply IH. intros b Hb. apply (Hclosed a b Ha_sound).
    exists (OArray elems). split; [done|]. simpl.
    apply list_elem_of_bind. eauto.
  - by rewrite (Hsound a props Ha_sound Ha).
Qed.

Lemma reachable_closed (h : Heap) v a b :
  reachable h v a → points_to h a b → reachable h v b.
Proof.
  intros (r & Hr & Hra) Hab. exists r. split; [done|]. by eapply rtc_r.
Qed.

Lemma String_convertible (h : Heap) v :
  convertible h v → unthrown (String_ h v).
Proof.
  intros Hconv. apply (to_string_unthrown h (reachable h v)).
  - intros a b. apply reachable_closed.
  - intros a props Ha. by apply Hconv.
  - intros b Hb. by exists b.
Qed.





(* ===================================================================== *)
(** ** Facts about the error normalizer *)
(* ===================================================================== *)

Lemma String_VStr (h : Heap) s : String_ h (VStr s) = Ok s.
Proof. done. Qed.




(** Whatever it is given, the normalizer ends, and a result it returns is an
    error envelope with one text block. *)
Lemma error_entry_settled (h : Heap) e : settled (error_entry h e).
Proof.
  assert (∀ v, settled
    (JSON_stringify h v ≫= λ s : option string,
       Ok (match s with Some s => VStr s | None => VUndefined end))) as Hjson.
  { intros v. apply bind_settled; [apply JSON_stringify_settled|done]. }
  unfold error_entry. destruct (truthy e); simpl; [|done].
  destruct e as [| |b|n|s|a]; try done; simpl; try apply Hjson.
  destruct (h !! a) as [[elems|props]|]; simpl; try apply Hjson.
  destruct (nullish (default VUndefined (assoc "message" props)));
    [apply Hjson|done].
Qed.

Lemma reportAirtopErrors_settled (h : Heap) errors :
  settled (reportAirtopErrors h errors).
Proof.
  unfold reportAirtopErrors. apply bind_settled; [|done].
  destruct (nonempty_array h errors) as [es|].
  - apply bind_settled.
    + apply mapM_settled, Forall_forall. intros e _. apply error_entry_settled.
    + intros mapped _. apply join_settled.
  - apply String_settled.
Qed.




Lemma reportAirtopErrors_shape (h : Heap) errors r :
  reportAirtopErrors h errors = Ok r →
  isError r = Some true ∧ ∃ s, content r = [text_block s].
Proof.
  unfold reportAirtopErrors.
  destruct (match nonempty_array h errors with Some _ => _ | None => _ end);
    simpl; [|done..].
  intros [= <-]. simpl. eauto.
Qed.


(* ===================================================================== *)
(** ** Facts about the handlers *)
(* ===================================================================== *)

Create HintDb ends discriminated.

Section MonadFacts.
Context (w : World).

Lemma ends_ret {A} (a : A) : ends (mret a).
Proof. by intros st. Qed.

Lemma ends_bind {A B} (m : M A) (k : A → M B) :
  ends m → (∀ a, ends (k a)) → ends (m ≫= k).
Proof.
  intros Hm Hk st. unfold mbind, M_bind. specialize (Hm st).
  destruct (m st) as [[a|e|] st']; simpl in *; [apply Hk|done|done].
Qed.

Lemma ends_lift {A} (o : Outcome A) : settled o → ends (lift o).
Proof. by intros Ho st. Qed.

Lemma ends_try_catch {A} (body : M A) handler :
  ends body → (∀ e, ends (handler e)) → ends (try_catch body handler).
Proof.
  intros Hb Hh st. unfold try_catch. specialize (Hb st).
  destruct (body st) as [[a|e|] st']; simpl in *; [done|apply Hh|done].
Qed.

Lemma ends_call c : ends (call w c).
Proof. intros st. unfold call. by destruct (backend w _ _). Qed.

Lemma ends_now : ends (now w).
Proof. by intros st. Qed.

Lemma ends_update_registry f : ends (update_registry f).
Proof. by intros st. Qed.

Lemma ends_prop v k : ends (prop w v k).
Proof.
  apply ends_lift. unfold get_prop. by repeat case_match.
Qed.

Lemma ends_prop_opt v k : ends (prop_opt w v k).
Proof.
  apply ends_lift. unfold opt_prop, get_prop. by repeat case_match.
Qed.

Lemma delivers_ret r : content r ≠ [] → delivers (mret r).
Proof. by intros Hr st. Qed.

Lemma delivers_bind {A} (m : M A) (k : A → M ToolResult) :
  ends m → (∀ a, delivers (k a)) → delivers (m ≫= k).
Proof.
  intros Hm Hk st. unfold mbind, M_bind. specialize (Hm st).
  destruct (m st) as [[a|e|] st']; simpl in *; [apply Hk|done|done].
Qed.

Lemma delivers_try_catch (body : M ToolResult) handler :
  delivers body → (∀ e, delivers (handler e)) →
  delivers (try_catch body handler).
Proof.
  intros Hb Hh st. unfold try_catch. specialize (Hb st).
  destruct (body st) as [[a|e|] st']; simpl in *; [done|apply Hh|done].
Qed.

Lemma delivers_report errors : delivers (report w errors).
Proof.
  intros st. unfold report, lift. simpl.
  pose proof (reportAirtopErrors_settled (heap w) errors) as Hs.
  destruct (reportAirtopErrors (heap w) errors) as [r| |] eqn:Hr; [|done..].
  apply reportAirtopErrors_shape in Hr as [_ [s ->]]. done.
Qed.

Lemma delivers_stringified (h : Heap) v :
  delivers (s ← lift (JSON_stringify h v);
            mret {| content := [{| type := "text"; text := s |}];
                    isError := None |}).
Proof.
  apply delivers_bind.
  - apply ends_lift, JSON_stringify_settled.
  - intros s. by apply delivers_ret.
Qed.

Lemma delivers_json_result v : delivers (json_result w v).
Proof. apply delivers_stringified. Qed.

End MonadFacts.

#[global] Hint Resolve ends_ret ends_lift ends_call ends_now ends_update_registry
  ends_prop ends_prop_opt : ends.

(** One step through the text of a handler. *)
Ltac handler_step :=
  match goal with
  | |- delivers (if ?b then _ else _) => destruct b
  | |- delivers (try_catch _ _) => apply delivers_try_catch; [|intros ?]
  | |- delivers (report _ _) => apply delivers_report
  | |- delivers (json_result _ _) => apply delivers_json_result
  | |- delivers (mret _) => by apply delivers_ret
  | |- delivers (_ ≫= _) => apply delivers_bind; [auto with ends|intros ?]
  end.

Section HandlerFacts.
Context (w : World).

Lemma createSession_delivers : delivers (createSession w).
Proof. unfold createSession. repeat handler_step. Qed.

Lemma createSessionWithOptions_delivers configuration :
  delivers (createSessionWithOptions w configuration).
Proof.
  unfold createSessionWithOptions. repeat handler_step.
  destruct (configuration ≫= profileName) as [name|]; [|auto with ends].
  destruct (_ && _); [|auto with ends].
  apply ends_bind; [auto with ends|intros t].
  apply ends_bind; [auto with ends|intros _].
  apply ends_try_catch; [|auto with ends].
  apply ends_bind; auto with ends.
Qed.

Lemma createWindow_delivers sessionId url :
  delivers (createWindow w sessionId url).
Proof. unfold createWindow. repeat handler_step. Qed.

Lemma pageQuery_delivers sessionId windowId prompt :
  delivers (pageQuery w sessionId windowId prompt).
Proof. unfold pageQuery. repeat handler_step. Qed.

Lemma terminateSession_delivers sessionId :
  delivers (terminateSession w sessionId).
Proof. unfold terminateSession. repeat handler_step. Qed.

Lemma getWindowInfo_delivers sessionId windowId :
  delivers (getWindowInfo w sessionId windowId).
Proof. unfold getWindowInfo. repeat handler_step. Qed.

Lemma paginatedExtraction_delivers sessionId windowId prompt outputSchema :
  delivers (paginatedExtraction w sessionId windowId prompt outputSchema).
Proof. unfold paginatedExtraction. repeat handler_step. Qed.

Lemma click_delivers sessionId windowId elementDescription coordinate :
  delivers (click w sessionId windowId elementDescription coordinate).
Proof. unfold click. repeat handler_step. Qed.

Lemma scroll_delivers sessionId windowId elementDescription :
  delivers (scroll w sessionId windowId elementDescription).
Proof. unfold scroll. repeat handler_step. Qed.

Lemma type_delivers sessionId windowId text elementDescription :
  delivers (type_ w sessionId windowId text elementDescription).
Proof. unfold type_. repeat handler_step. Qed.

Lemma scrape_delivers sessionId windowId :
  delivers (scrape w sessionId windowId).
Proof. unfold scrape. repeat handler_step. Qed.

Lemma fileInput_delivers sessionId windowId elementDescription filePath :
  delivers (fileInput w sessionId windowId elementDescription filePath).
Proof.
  unfold fileInput. apply delivers_try_catch; [|intros e; handler_step].
  do 2 handler_step. apply delivers_stringified.
Qed.

Lemma monitorForCondition_delivers sessionId windowId condition timeoutSeconds :
  delivers (monitorForCondition w sessionId windowId condition timeoutSeconds).
Proof. unfold monitorForCondition. repeat handler_step. Qed.

End HandlerFacts.

(* ===================================================================== *)
(** ** Facts about the tool registry *)
(* ===================================================================== *)

(** Splits [t ∈ tools w] into the thirteen registrations. *)
Ltac each_tool H :=
  unfold tools in H;
  repeat (apply elem_of_cons in H as [->|H]);
  [..|by apply elem_of_nil in H].

(** Names are unique: looking a registered tool up by its name finds it. *)
Lemma find_tool (w : World) t :
  t ∈ tools w →
  find (λ t', String.eqb (tool_name t') (tool_name t)) (tools w) = Some t.
Proof. intros Ht. each_tool Ht; reflexivity. Qed.

Lemma tools_deliver (w : World) t rawInput cb :
  t ∈ tools w → run_handler (heap w) t rawInput = Some cb → delivers cb.
Proof.
  intros Ht. each_tool Ht; simpl;
    try (destruct (_ (heap w) rawInput) as [args|]; [|done]);
    intros [= <-].
  - apply createSession_delivers.
  - apply createSessionWithOptions_delivers.
  - destruct args as [sessionId url]. apply createWindow_delivers.
  - destruct args as [[sessionId windowId] prompt]. apply pageQuery_delivers.
  - apply terminateSession_delivers.
  - destruct args as [sessionId windowId]. apply getWindowInfo_delivers.
  - destruct args as [[[sessionId windowId] prompt] outputSchema].
    apply paginatedExtraction_delivers.
  - destruct args as [[[sessionId windowId] elementDescription] coordinate].
    apply click_delivers.
  - destruct args as [[sessionId windowId] elementDescription].
    apply scroll_delivers.
  - destruct args as [[[sessionId windowId] text] elementDescription].
    apply type_delivers.
  - destruct args as [sessionId windowId]. apply scrape_delivers.
  - destruct args as [[[sessionId windowId] elementDescription] filePath].
    apply fileInput_delivers.
  - destruct args as [[[sessionId windowId] condition] timeoutSeconds].
    apply monitorForCondition_delivers.
Qed.

(** What the boundary makes of a handler's run. *)
Lemma guarded_run (cb : M ToolResult) st :
  guarded cb st =
    match cb st with
    | (Throw e, st') => (Ok (error_result (String_of_exn e)), st')
    | r => r
    end.
Proof. unfold guarded, try_catch. by destruct (cb st) as [[r|e|] st']. Qed.

Lemma dispatch_accepted (h : Heap) t rawInput cb :
  run_handler h t rawInput = Some cb → dispatch h t rawInput = guarded cb.
Proof.
  destruct t as [name description cb0|name description Args inputSchema cb0];
    simpl; [by intros [= <-]|].
  destruct (inputSchema h rawInput); [by intros [= <-]|done].
Qed.

Lemma accepts_run_handler (h : Heap) t rawInput :
  accepts h t rawInput = true → ∃ cb, run_handler h t rawInput = Some cb.
Proof.
  destruct t as [name description cb0|name description Args inputSchema cb0];
    simpl; [by eauto|].
  destruct (inputSchema h rawInput); [by eauto|done].
Qed.

(* ===================================================================== *)
(** ** Facts about the connection registry *)
(* ===================================================================== *)

Section ConnectionRegistry.
Implicit Types (reg : gmap string SSEServerTransport)
               (live : list SSEServerTransport) (used : list string).

Lemma agrees_open used live reg t :
  agrees used live reg → transport_sessionId t ∉ used →
  reg !! transport_sessionId t = None
  ∧ agrees (transport_sessionId t :: used) (t :: live)
           (<[transport_sessionId t := t]> reg).
Proof.
  intros [Hlive Hused] Hfresh.
  assert (reg !! transport_sessionId t = None) as Hnone.
  { apply eq_None_not_Some. intros Hsome. by apply Hfresh, Hused. }
  split; [done|]. split.
  - intros t' [->|Ht']%elem_of_cons; [by rewrite lookup_insert_eq|].
    rewrite lookup_insert_ne; [by apply Hlive|].
    intros Heq. apply Hfresh, Hused. rewrite Heq. by rewrite (Hlive t' Ht').
  - intros k [Hk|Hk]%lookup_insert_is_Some.
    + subst k. apply list_elem_of_here.
    + apply list_elem_of_further, Hused, Hk.
Qed.

Lemma agrees_close used live reg t :
  agrees used live reg → t ∈ live →
  reg !! transport_sessionId t = Some t
  ∧ transport_sessionId t ∈ used
  ∧ agrees used (filter (λ t', t' ≠ t) live) (on_close t reg).
Proof.
  intros [Hlive Hused] Ht.
  split; [by apply Hlive|]. split; [apply Hused; by rewrite (Hlive t Ht)|].
  split.
  - intros t' [Hne Ht']%list_elem_of_filter. unfold on_close.
    rewrite lookup_delete_ne; [by apply Hlive|].
    intros Heq. apply Hne.
    pose proof (Hlive t Ht) as H1. pose proof (Hlive t' Ht') as H2.
    rewrite Heq in H1. congruence.
  - intros k [v Hk]. unfold on_close in Hk.
    apply lookup_delete_Some in Hk as [_ Hk]. apply Hused. by eexists.
Qed.

Lemma run_events_orderly evs : ∀ used live reg,
  orderly used live evs = true → agrees used live reg →
  ∃ reg',
    run_events evs reg = Some reg'
    ∧ size reg' + length (closed evs) = size reg + length (opened evs)
    ∧ (∀ k, k ∈ used → reg !! k = None → reg' !! k = None)
    ∧ (∀ t, t ∈ closed evs → reg' !! transport_sessionId t = None)
    ∧ (∀ t, t ∈ (live ++ opened evs)%list → t ∉ closed evs →
            reg' !! transport_sessionId t = Some t).
Proof.
  induction evs as [|[t|t] evs IH]; intros used live reg Hord Hag.
  - exists reg. simpl. split_and!; try done.
    + intros t Ht. by apply elem_of_nil in Ht.
    + intros t Ht _. rewrite app_nil_r in Ht. by apply Hag.
  - simpl in Hord. apply andb_true_iff in Hord as [Hord Hrest].
    apply andb_true_iff in Hord as [Hkey Hfresh].
    apply negb_true_iff in Hkey.
    apply bool_decide_eq_true in Hfresh.
    destruct (agrees_open used live reg t Hag Hfresh) as [Hnone Hag'].
    destruct (IH _ _ _ Hrest Hag') as (reg' & Hrun & Hsize & Hkeep & Hclosed & Hopen).
    exists reg'. simpl. unfold get_sse, transports_set.
    rewrite Hkey. simpl. split_and!; try done.
    + rewrite Hsize, map_size_insert_None by done. lia.
    + intros k Hk Hk'. apply Hkeep; [by apply list_elem_of_further|].
      rewrite lookup_insert_ne; [done|]. intros <-. by apply Hfresh.
    + intros t' Ht' Hnc. apply Hopen; [|done].
      simpl in Ht'. rewrite elem_of_app, elem_of_cons in Ht'.
      rewrite elem_of_app, elem_of_cons. tauto.
  - simpl in Hord. apply andb_true_iff in Hord as [Hlive Hrest].
    apply bool_decide_eq_true in Hlive.
    destruct (agrees_close used live reg t Hag Hlive) as (Hsome & Hused & Hag').
    destruct (IH _ _ _ Hrest Hag') as (reg' & Hrun & Hsize & Hkeep & Hclosed & Hopen).
    exists reg'. simpl. split_and!; try done.
    + unfold on_close in Hsize.
      rewrite map_size_delete_Some in Hsize by (by eexists).
      assert (size reg ≠ 0); [|lia].
      intros Hz. apply map_size_empty_inv in Hz. by rewrite Hz in Hsome.
    + intros k Hk Hk'. apply Hkeep; [done|]. unfold on_close.
      apply lookup_delete_None. by right.
    + intros t' [->|Ht']%elem_of_cons; [|by apply Hclosed].
      apply Hkeep; [done|]. unfold on_close. apply lookup_delete_eq.
    + intros t' Ht' Hnc. simpl in Hnc. rewrite not_elem_of_cons in Hnc.
      destruct Hnc as [Hne Hnc]. apply Hopen; [|done].
      rewrite elem_of_app in Ht'. rewrite elem_of_app.
      destruct Ht' as [Hl|Ho]; [left|by right].
      by apply list_elem_of_filter.
Qed.

End ConnectionRegistry.





Lemma join_unthrown (h : Heap) sep elems :
  Forall (convertible h) elems → unthrown (join h sep elems).
Proof.
  intros Hconv. unfold join. apply bind_unthrown; [|done].
  apply mapM_unthrown. eapply Forall_impl; [done|].
  intros v Hv. unfold joined_text.
  destruct (nullish v); [done|by apply String_convertible].
Qed.




(* ===================================================================== *)
(** ** The claims *)
(* ===================================================================== *)

(** C1.  For every registered tool and every raw input its schema accepts,
    [invoke] returns an envelope whose content is not empty and raises
    nothing: it returns what the handler returned, and when the handler's run
    ends in an exception (one of its own or one surfaced by a backend call),
    the boundary turns it into an envelope with [isError = true] carrying the
    exception's text.  The state is the one the handler left. *)
Theorem C1_invoke_returns_envelope (w : World) (t : Tool) (rawInput : Val) (st : St) :
  t ∈ tools w →
  accepts (heap w) t rawInput = true →
  ∃ cb r st',
    run_handler (heap w) t rawInput = Some cb
    ∧ invoke w (tool_name t) rawInput st = (Ok r, st')
    ∧ content r ≠ []
    ∧ match cb st with
      | (Ok r', st'') => r = r' ∧ st' = st''
      | (Throw e, st'') =>
          r = error_result (String_of_exn e) ∧ isError r = Some true ∧ st' = st''
      | (OutOfFuel, _) => False
      end.
Proof.
  intros Ht Hacc.
  destruct (accepts_run_handler _ _ _ Hacc) as [cb Hcb].
  pose proof (tools_deliver w t rawInput cb Ht Hcb st) as Hdel.
  unfold invoke. rewrite (find_tool w t Ht), (dispatch_accepted _ _ _ _ Hcb).
  rewrite guarded_run.
  destruct (cb st) as [[r|e|] st'] eqn:Hrun; simpl in Hdel; [| |done].
  - exists cb, r, st'. by rewrite Hrun.
  - exists cb, (error_result (String_of_exn e)), st'. by rewrite Hrun.
Qed.

Lemma C1_invoke_returns_envelope_witness :
  ∃ cb r st',
    run_handler (heap world_unreachable) (scroll_tool world_unreachable) (VRef 0)
      = Some cb
    ∧ invoke world_unreachable "scroll" (VRef 0) st_start = (Ok r, st')
    ∧ content r ≠ []
    ∧ match cb st_start with
      | (Ok r', st'') => r = r' ∧ st' = st''
      | (Throw e, st'') =>
          r = error_result (String_of_exn e) ∧ isError r = Some true ∧ st' = st''
      | (OutOfFuel, _) => False
      end.
Proof.
  apply (C1_invoke_returns_envelope world_unreachable
           (scroll_tool world_unreachable) (VRef 0) st_start).
  - unfold tools. do 8 apply list_elem_of_further. apply list_elem_of_here.
  - reflexivity.
Defined.






(** C4.  For every registered tool with a schema and every raw input that
    violates it, [invoke] returns an envelope with [isError = true] whose
    text is a validation message naming the tool and the issue; nothing is
    raised; the state is untouched (no call reached the backend, the session
    registry is as it was); and the tool's callback plays no part: with any
    other callback in its place the outcome is the same. *)
Theorem C4_schema_violation_rejected (w : World) (t : Tool) (rawInput : Val) (st : St) :
  t ∈ tools w →
  has_schema t = true →
  accepts (heap w) t rawInput = false →
  ∃ issue r,
    r = error_result ("Invalid arguments for tool " +:+ tool_name t +:+ ": " +:+ issue)
    ∧ invoke w (tool_name t) rawInput st = (Ok r, st)
    ∧ isError r = Some true
    ∧ content r ≠ []
    ∧ ∀ cb', dispatch (heap w) (with_callback t cb') rawInput st = (Ok r, st).
Proof.
  intros Ht Hschema Hacc. unfold invoke. rewrite (find_tool w t Ht).
  destruct t as [name description cb|name description Args inputSchema cb];
    simpl in *; [done|].
  destruct (inputSchema (heap w) rawInput) as [args|issue]; [done|].
  exists issue. eexists. split; [reflexivity|]. by split_and!.
Qed.

Lemma C4_schema_violation_rejected_witness :
  ∃ issue r,
    r = error_result ("Invalid arguments for tool createWindow: " +:+ issue)
    ∧ invoke world_unreachable "createWindow" (VRef 1) st_start = (Ok r, st_start)
    ∧ isError r = Some true
    ∧ content r ≠ []
    ∧ ∀ cb', dispatch (heap world_unreachable)
               (with_callback (createWindow_tool world_unreachable) cb')
               (VRef 1) st_start = (Ok r, st_start).
Proof.
  apply (C4_schema_violation_rejected world_unreachable
           (createWindow_tool world_unreachable) (VRef 1) st_start).
  - unfold tools. do 2 apply list_elem_of_further. apply list_elem_of_here.
  - reflexivity.
  - reflexivity.
Defined.

(** C5 fails on the code at a key inherited from [Object.prototype]: with no
    stream open, a POST whose [sessionId] is [constructor] is not answered
    with status 400; the handler takes the inherited value for a transport
    and throws.  Otherwise the claim holds: an identifier that is neither
    live nor an inherited key is answered with 400, and a live one is handed
    to its transport. *)
Theorem C5_inherited_key_is_not_rejected :
  post_messages ∅ (Some "constructor")
    = PostThrows (TypeError "transport.handlePostMessage is not a function")
  ∧ (∀ transports k,
       transports !! k = None → k ∉ Object_prototype_keys →
       post_messages transports (Some k)
         = Status400 "No transport found for sessionId")
  ∧ (∀ transports k t,
       transports !! k = Some t →
       post_messages transports (Some k) = HandlePostMessage t).
Proof.
  split; [reflexivity|]. split.
  - intros transports k Hk Hproto. unfold post_messages, transports_get. simpl.
    rewrite Hk. by rewrite bool_decide_eq_false_2.
  - intros transports k t Hk. unfold post_messages, transports_get. simpl.
    by rewrite Hk.
Qed.

(** C6.  In every history in which streams are opened under fresh
    identifiers and closed while open, the gateway keeps one entry per open
    stream: after [N] streams were opened and [M] of them closed, [M ≤ N]
    and the registry holds exactly [N - M] entries, none under the
    identifier of a closed stream, and under the identifier of each stream
    still open that very stream. *)
Theorem C6_registry_counts_open_streams (evs : list Event) :
  orderly [] [] evs = true →
  ∃ transports,
    run_events evs ∅ = Some transports
    ∧ length (closed evs) ≤ length (opened evs)
    ∧ size transports = length (opened evs) - length (closed evs)
    ∧ (∀ t, t ∈ closed evs → transports !! transport_sessionId t = None)
    ∧ (∀ t, t ∈ opened evs → t ∉ closed evs →
            transports !! transport_sessionId t = Some t).
Proof.
  intros Hord.
  destruct (run_events_orderly evs [] [] ∅ Hord)
    as (reg' & Hrun & Hsize & _ & Hclosed & Hopen).
  { split; [by intros t Ht%elem_of_nil|].
    intros k [v Hv]. by rewrite lookup_empty in Hv. }
  rewrite map_size_empty in Hsize.
  exists reg'. split_and!; [done|lia|lia|done|].
  intros t Ht Hnc. by apply Hopen.
Qed.

Lemma C6_registry_counts_open_streams_witness :
  ∃ transports,
    run_events history_abc ∅ = Some transports
    ∧ length (closed history_abc) ≤ length (opened history_abc)
    ∧ size transports = length (opened history_abc) - length (closed history_abc)
    ∧ (∀ t, t ∈ closed history_abc → transports !! transport_sessionId t = None)
    ∧ (∀ t, t ∈ opened history_abc → t ∉ closed history_abc →
            transports !! transport_sessionId t = Some t).
Proof.
  apply (C6_registry_counts_open_streams history_abc). vm_compute. reflexivity.
Defined.

(** C7.  Releasing a session that the registry does not track changes
    nothing and raises nothing, and for every session identifier, tracking it
    and then releasing it leaves its lookup absent. *)
Theorem C7_release_is_safe (reg : gmap Val SessionMetadata) (sessionId : string) :
  (lookup_session sessionId reg = None → release sessionId reg = reg)
  ∧ (∀ profile now,
       lookup_session sessionId
         (release sessionId (track (VStr sessionId) profile now reg)) = None).
Proof.
  unfold lookup_session, release, track. split.
  - apply delete_id.
  - intros profile now. apply lookup_delete_eq.
Qed.

Lemma C7_release_is_safe_witness :
  release "s1" ∅ = ∅
  ∧ lookup_session "s1" (release "s1" (track (VStr "s1") (Some "work") 0%Z ∅)) = None.
Proof.
  destruct (C7_release_is_safe ∅ "s1") as [Hnoop Habsent].
  split; [apply Hnoop, lookup_empty|apply Habsent].
Defined.

(** C8 fails on the code when the credential is missing: [main] rejects, the
    rejection is only printed, and the process ends with code 0.  No outcome
    of [main] makes the process end with another code; with [--help] or
    [--version] it ends with code 0 as claimed. *)
Theorem C8_missing_credential_exits_zero :
  (main argv_plain ∅).2
    = MainRejects (Raised "Error: AIRTOP_API_KEY environment variable is required")
  ∧ run_process argv_plain ∅ = Exits 0
  ∧ (∀ argv env flag,
       flag ∈ ["--help"; "-h"; "--version"; "-v"] → flag ∈ argv →
       run_process argv env = Exits 0)
  ∧ (∀ argv env,
       run_process argv env = Exits 0 ∨ ∃ port, run_process argv env = Serves port).
Proof.
  split; [reflexivity|]. split; [reflexivity|]. split.
  - intros argv env flag Hflag Hargv. unfold run_process, main.
    repeat (apply elem_of_cons in Hflag as [->|Hflag]);
      [..|by apply elem_of_nil in Hflag];
      repeat (case_bool_decide; simpl; try done).
  - intros argv env. unfold run_process, main.
    repeat (case_bool_decide; simpl; eauto);
      destruct (env !! "AIRTOP_API_KEY") as [apiKey|]; simpl; eauto;
      destruct (negb _); simpl; eauto.
Qed.

(** C9 fails on the code: the port is the constant 3456.  Started with
    [--listen] and [PORT=8080] in the environment the server listens on 3456,
    and no arguments or environment make it listen elsewhere. *)
Theorem C9_port_is_fixed :
  (main argv_listen env_with_port).2 = MainListens 3456
  ∧ (∀ argv env,
       match (main argv env).2 with
       | MainListens port => port = 3456%Z
       | _ => True
       end).
Proof.
  split; [reflexivity|].
  intros argv env. unfold main.
  repeat (case_bool_decide; simpl; try done);
    destruct (env !! "AIRTOP_API_KEY") as [apiKey|]; simpl; try done;
    destruct (negb _); simpl; try done.
Qed.

(** C10.  Whatever the backend answers to the terminate call, after the
    [terminateSession] handler has run on session [s] the registry is the one
    before with the entry of [s] removed, so it has no entry for [s]; when the
    call fails the handler ends with that exception and the removal stands. *)
Theorem C10_release_precedes_backend_call (w : World) (s : string) (st : St) :
  let '(out, st') := terminateSession w s st in
  sessionRegistry st' = release s (sessionRegistry st)
  ∧ lookup_session s (sessionRegistry st') = None
  ∧ calls st' = (calls st ++ [SessionsTerminate s])%list
  ∧ match backend w (calls st) (SessionsTerminate s) with
    | Fails e => out = Throw e
    | Returns _ =>
        out = Ok {| content := [text_block "Session terminated successfully"];
                    isError := None |}
    end.
Proof.
  unfold terminateSession, mbind, M_bind, update_registry, call. simpl.
  destruct (backend w (calls st) (SessionsTerminate s)); simpl;
    (split_and!; [done|apply lookup_delete_eq|done|done]).
Qed.

(* ===================================================================== *)
(** ** Further facts about the handlers *)
(* ===================================================================== *)

Section StateFacts.
Context (w : World).

Lemma stateless_ret {A} (a : A) : stateless (mret a).
Proof. by intros st. Qed.

Lemma stateless_lift {A} (o : Outcome A) : stateless (lift o).
Proof. by intros st. Qed.

Lemma stateless_bind {A B} (m : M A) (k : A → M B) :
  stateless m → (∀ a, stateless (k a)) → stateless (m ≫= k).
Proof.
  intros Hm Hk st. unfold mbind, M_bind. specialize (Hm st).
  destruct (m st) as [[a|e|] st']; simpl in *; subst; [apply Hk|done|done].
Qed.

Lemma stateless_json_result v : stateless (json_result w v).
Proof.
  apply stateless_bind; [apply stateless_lift|intros s; apply stateless_ret].
Qed.

Lemma calls_once_bind {A} c (k : Val → M A) :
  (∀ v, stateless (k v)) → calls_once c (call w c ≫= k).
Proof.
  intros Hk st. unfold mbind, M_bind, call.
  destruct (backend w (calls st) c) as [v|e]; simpl; [|done].
  by rewrite Hk.
Qed.

Lemma calls_once_try_catch {A} c (body : M A) handler :
  calls_once c body → (∀ e, stateless (handler e)) →
  calls_once c (try_catch body handler).
Proof.
  intros Hb Hh st. unfold try_catch. specialize (Hb st).
  destruct (body st) as [[a|e|] st']; simpl in *; [done| |done].
  by rewrite Hh.
Qed.

End StateFacts.

(** Steps through a continuation that only reads. *)
Ltac stateless_step :=
  match goal with
  | |- stateless (if ?b then _ else _) => destruct b
  | |- stateless (prop _ _ _) => apply stateless_lift
  | |- stateless (prop_opt _ _ _) => apply stateless_lift
  | |- stateless (report _ _) => apply stateless_lift
  | |- stateless (lift _) => apply stateless_lift
  | |- stateless (json_result _ _) => apply stateless_json_result
  | |- stateless (mret _) => apply stateless_ret
  | |- stateless (_ ≫= _) => apply stateless_bind; [|intros ?]
  end.

Ltac calls_once_tac :=
  first [ apply calls_once_try_catch;
            [apply calls_once_bind; intros ?|intros ?]
        | apply calls_once_bind; intros ? ];
  repeat stateless_step.

(** X1.  Each of the eleven handlers other than [createSessionWithOptions]
    and [terminateSession] makes exactly one call on the backend, the one
    built from its arguments, and leaves the session registry as it was,
    whether the call returns, reports errors or fails: nothing is retried
    and nothing else is contacted. *)
Theorem X1_one_backend_call_per_invocation (w : World) :
  calls_once (SessionsCreate None) (createSession w)
  ∧ (∀ s url, calls_once (WindowsCreate s url) (createWindow w s url))
  ∧ (∀ s wi p, calls_once (WindowsPageQuery s wi p) (pageQuery w s wi p))
  ∧ (∀ s wi, calls_once (WindowsGetWindowInfo s wi) (getWindowInfo w s wi))
  ∧ (∀ s wi p o, calls_once (WindowsPaginatedExtraction s wi p o)
                   (paginatedExtraction w s wi p o))
  ∧ (∀ s wi d c, calls_once (WindowsClick s wi d c) (click w s wi d c))
  ∧ (∀ s wi d, calls_once (WindowsScroll s wi (if_truthy d)) (scroll w s wi d))
  ∧ (∀ s wi t d, calls_once (WindowsType s wi t (if_truthy d)) (type_ w s wi t d))
  ∧ (∀ s wi, calls_once (WindowsScrapeContent s wi) (scrape w s wi))
  ∧ (∀ s wi d f, calls_once (WindowsUploadFileAndSelectInput s wi d f)
                   (fileInput w s wi d f))
  ∧ (∀ s wi c t, calls_once (WindowsMonitor s wi c (default 30%Z t))
                   (monitorForCondition w s wi c t)).
Proof.
  split_and!; intros;
    unfold createSession, createWindow, pageQuery, getWindowInfo,
      paginatedExtraction, click, scroll, type_, scrape, fileInput,
      monitorForCondition;
    calls_once_tac.
Qed.

Lemma try_catch_returns (body : M ToolResult) (f : Exn → ToolResult) :
  delivers (try_catch body (λ e, mret (f e))) →
  ∀ st, ∃ r, (try_catch body (λ e, mret (f e)) st).1 = Ok r.
Proof.
  intros Hd st. specialize (Hd st). unfold try_catch in *.
  destruct (body st) as [[r|e|] st']; simpl in *; by eauto.
Qed.

(** X2.  The four handlers written with a [try]/[catch] ([pageQuery],
    [click], [scrape], [fileInput]) never throw: whatever the backend does
    and whatever the shape of its reply, each of them returns an envelope. *)
Theorem X2_guarded_handlers_never_throw (w : World) (st : St) :
  (∀ s wi p, ∃ r, (pageQuery w s wi p st).1 = Ok r)
  ∧ (∀ s wi d c, ∃ r, (click w s wi d c st).1 = Ok r)
  ∧ (∀ s wi, ∃ r, (scrape w s wi st).1 = Ok r)
  ∧ (∀ s wi d f, ∃ r, (fileInput w s wi d f st).1 = Ok r).
Proof.
  split_and!; intros.
  - apply try_catch_returns, pageQuery_delivers.
  - apply try_catch_returns, click_delivers.
  - apply try_catch_returns, scrape_delivers.
  - apply try_catch_returns, fileInput_delivers.
Qed.

(** X3.  When the backend call fails with an exception [e], the handlers
    with a [catch] turn it into an error envelope whose text is their own
    prefix followed by [String(e)], and the other handlers end with [e]
    itself. *)
Theorem X3_backend_failure (w : World) (st : St) (e : Exn) :
  (∀ c, backend w (calls st) c = Fails e) →
  (∀ s wi p, (pageQuery w s wi p st).1
     = Ok (error_result ("Internal error during pageQuery: " +:+ String_of_exn e)))
  ∧ (∀ s wi d c, (click w s wi d c st).1
     = Ok (error_result ("Internal error during click: " +:+ String_of_exn e)))
  ∧ (∀ s wi, (scrape w s wi st).1
     = Ok (error_result ("Internal error during scrape: " +:+ String_of_exn e)))
  ∧ (∀ s wi d f, (fileInput w s wi d f st).1
     = Ok (error_result ("File upload failed: " +:+ String_of_exn e)))
  ∧ (createSession w st).1 = Throw e
  ∧ (∀ c, (createSessionWithOptions w c st).1 = Throw e)
  ∧ (∀ s url, (createWindow w s url st).1 = Throw e)
  ∧ (∀ s wi, (getWindowInfo w s wi st).1 = Throw e)
  ∧ (∀ s wi p o, (paginatedExtraction w s wi p o st).1 = Throw e)
  ∧ (∀ s wi d, (scroll w s wi d st).1 = Throw e)
  ∧ (∀ s wi t d, (type_ w s wi t d st).1 = Throw e)
  ∧ (∀ s wi c t, (monitorForCondition w s wi c t st).1 = Throw e).
Proof.
  intros Hfail. split_and!; intros;
    unfold pageQuery, click, scrape, fileInput, createSession,
      createSessionWithOptions, createWindow, getWindowInfo,
      paginatedExtraction, scroll, type_, monitorForCondition,
      try_catch, mbind, M_bind, call;
    by rewrite Hfail.
Qed.

Lemma X3_backend_failure_witness :
  (pageQuery world_unreachable "s1" "w1" "title?" st_start).1
    = Ok (error_result
            "Internal error during pageQuery: Error: connect ECONNREFUSED")
  ∧ (scroll world_unreachable "s1" "w1" None st_start).1
    = Throw (Raised "Error: connect ECONNREFUSED").
Proof.
  destruct (X3_backend_failure world_unreachable st_start
              (Raised "Error: connect ECONNREFUSED")) as (Hq & _ & _ & _ & _ & _ & _ & _ & _ & Hs & _).
  - reflexivity.
  - split; [apply Hq|apply Hs].
Defined.

Lemma reportAirtopErrors_empty (h : Heap) a :
  h !! a = Some (OArray []) →
  reportAirtopErrors h (VRef a)
  = Ok (error_result ("Errors from the API:" +:+ newline)).
Proof.
  intros Ha. unfold reportAirtopErrors, nonempty_array, String_. simpl.
  by rewrite !Ha.
Qed.

(** X4.  A reply whose [errors] is an empty array is treated in two ways.
    The handlers that test [errors] itself ([createSession], [pageQuery],
    [click], [scroll], [type], [scrape], [monitorForCondition]) report it as
    a failure: an envelope with [isError = true] and the bare banner.  The
    handlers that test [errors?.length] ([createWindow], [getWindowInfo])
    take it for success and return the serialized [data]. *)
Theorem X4_empty_error_list (w : World) (st : St) (r a : nat)
    (props : list (string * Val)) :
  (∀ c, backend w (calls st) c = Returns (VRef r)) →
  heap w !! r = Some (OObject props) →
  assoc "errors" props = Some (VRef a) →
  heap w !! a = Some (OArray []) →
  let failure := Ok (error_result ("Errors from the API:" +:+ newline)) in
  let success := (json_result w (default VUndefined (assoc "data" props)) st).1 in
  (createSession w st).1 = failure
  ∧ (∀ s wi p, (pageQuery w s wi p st).1 = failure)
  ∧ (∀ s wi d c, (click w s wi d c st).1 = failure)
  ∧ (∀ s wi d, (scroll w s wi d st).1 = failure)
  ∧ (∀ s wi t d, (type_ w s wi t d st).1 = failure)
  ∧ (∀ s wi, (scrape w s wi st).1 = failure)
  ∧ (∀ s wi c t, (monitorForCondition w s wi c t st).1 = failure)
  ∧ (∀ s url, (createWindow w s url st).1 = success)
  ∧ (∀ s wi, (getWindowInfo w s wi st).1 = success).
Proof.
  intros Hreply Hr Herrors Ha failure success. subst failure success.
  split_and!; intros;
    unfold createSession, pageQuery, click, scroll, type_, scrape,
      monitorForCondition, createWindow, getWindowInfo, json_result,
      try_catch, mbind, M_bind, call, prop, prop_opt, report, lift,
      opt_prop, get_prop;
    rewrite Hreply; simpl; rewrite Hr, Herrors; simpl;
    rewrite ?(reportAirtopErrors_empty _ _ Ha), ?Ha; simpl; try done;
    rewrite ?Hr; simpl; by destruct (JSON_stringify _ _).
Qed.

Lemma X4_empty_error_list_witness :
  (scroll world_empty_errors "s1" "w1" None st_start).1
    = Ok (error_result ("Errors from the API:" +:+ newline))
  ∧ (createWindow world_empty_errors "s1" "https://example.com" st_start).1
    = Ok {| content := [text_block ("{" +:+ dquote +:+ "id" +:+ dquote +:+ ":"
                                      +:+ dquote +:+ "w1" +:+ dquote +:+ "}")];
            isError := None |}.
Proof.
  destruct (X4_empty_error_list world_empty_errors st_start 0 1
              [("errors", VRef 1); ("data", VRef 2)])
    as (_ & _ & _ & Hscroll & _ & _ & _ & Hwindow & _);
    try reflexivity.
  split; [apply Hscroll|]. rewrite Hwindow. reflexivity.
Defined.

Lemma createSessionWithOptions_tracked (w : World) (st : St)
    (c : SessionOptionsConfig) (name : string) (session errors data id : Val) :
  backend w (calls st) (SessionsCreate (Some (Some c))) = Returns session →
  get_prop (heap w) session "errors" = Ok errors → truthy errors = false →
  get_prop (heap w) session "data" = Ok data →
  opt_prop (heap w) data "id" = Ok id → truthy id = true →
  profileName c = Some name → truthy (VStr name) = true →
  let created := (calls st ++ [SessionsCreate (Some (Some c))])%list in
  let '(out, st') := createSessionWithOptions w (Some c) st in
  sessionRegistry st'
    = track id (Some name) (clock w created) (sessionRegistry st)
  ∧ calls st' = (created ++ [SessionsSaveProfileOnTermination id name])%list
  ∧ out = (json_result w data st).1.
Proof.
  intros Hcreate Herrors Hnone Hdata Hid Hidt Hname Hnamet created.
  unfold createSessionWithOptions, mbind at 1, M_bind at 1, call at 1.
  rewrite Hcreate.
  unfold prop, prop_opt, lift, mbind, M_bind. rewrite Herrors, Hnone, Hdata, Hid.
  simpl. rewrite Hname. simpl in Hnamet |- *. rewrite Hidt, Hnamet. simpl.
  unfold try_catch, call, json_result, mbind, M_bind, lift. simpl.
  destruct (backend w _ (SessionsSaveProfileOnTermination id name)); simpl;
    by destruct (JSON_stringify (heap w) data).
Qed.

(** X5.  When a session is created without reported errors, with a truthy
    [id] and under a non-empty profile name, [createSessionWithOptions]
    records it in the session registry under that [id], asks the backend to
    save the profile on termination, and returns the serialized [data]; the
    answer to that second call, failure included, changes neither the entry
    nor the result. *)
Theorem X5_profile_session_is_tracked (w : World) (st : St)
    (c : SessionOptionsConfig) (name : string) (session errors data id : Val) :
  backend w (calls st) (SessionsCreate (Some (Some c))) = Returns session →
  get_prop (heap w) session "errors" = Ok errors → truthy errors = false →
  get_prop (heap w) session "data" = Ok data →
  opt_prop (heap w) data "id" = Ok id → truthy id = true →
  profileName c = Some name → truthy (VStr name) = true →
  let created := (calls st ++ [SessionsCreate (Some (Some c))])%list in
  let '(out, st') := createSessionWithOptions w (Some c) st in
  sessionRegistry st'
    = track id (Some name) (clock w created) (sessionRegistry st)
  ∧ calls st' = (created ++ [SessionsSaveProfileOnTermination id name])%list
  ∧ out = (json_result w data st).1.
Proof. apply createSessionWithOptions_tracked. Qed.

Lemma X5_profile_session_is_tracked_witness :
  let '(out, st') := createSessionWithOptions world_profile (Some config_work) st_start in
  sessionRegistry st' = track (VStr "s9") (Some "work") 7%Z ∅
  ∧ calls st' = [SessionsCreate (Some (Some config_work));
                 SessionsSaveProfileOnTermination (VStr "s9") "work"]
  ∧ out = (json_result world_profile (VRef 1) st_start).1.
Proof.
  apply (X5_profile_session_is_tracked world_profile st_start config_work "work"
           (VRef 0) VUndefined (VRef 1) (VStr "s9")); reflexivity.
Defined.

(** X6.  Without a non-empty profile name in the configuration (no
    configuration, no [profileName], or an empty one),
    [createSessionWithOptions] never touches the session registry and makes
    the one call that creates the session, whatever the backend answers. *)
Theorem X6_no_profile_no_tracking (w : World)
    (configuration : option SessionOptionsConfig) :
  if_truthy (configuration ≫= profileName) = None →
  calls_once (SessionsCreate (Some configuration))
             (createSessionWithOptions w configuration).
Proof.
  intros Hprofile. unfold createSessionWithOptions.
  apply calls_once_bind. intros session. repeat stateless_step.
  destruct (configuration ≫= profileName) as [name|]; [|apply stateless_ret].
  unfold if_truthy in Hprofile. destruct (truthy (VStr name)); [done|].
  rewrite andb_false_r. apply stateless_ret.
Qed.

Lemma X6_no_profile_no_tracking_witness :
  calls_once (SessionsCreate (Some None)) (createSessionWithOptions world_profile None).
Proof. apply (X6_no_profile_no_tracking world_profile None). reflexivity. Defined.

Section ShapeFacts.
Context (w : World).

Lemma shapely_ret r : one_text_block r → shapely (mret r).
Proof. intros Hr st r' [= <-]. done. Qed.

Lemma shapely_bind {A} (m : M A) (k : A → M ToolResult) :
  (∀ a, shapely (k a)) → shapely (m ≫= k).
Proof.
  intros Hk st r. unfold mbind, M_bind.
  destruct (m st) as [[a|e|] st']; simpl; [apply Hk|done|done].
Qed.

Lemma shapely_try_catch (body : M ToolResult) handler :
  shapely body → (∀ e, shapely (handler e)) → shapely (try_catch body handler).
Proof.
  intros Hb Hh st r. unfold try_catch. specialize (Hb st).
  destruct (body st) as [[r'|e|] st']; simpl in *; [apply Hb|apply Hh|done].
Qed.

Lemma shapely_report errors : shapely (report w errors).
Proof.
  intros st r Hr. apply reportAirtopErrors_shape in Hr as [Herr [s Hs]].
  split; [by exists (Some s)|by right].
Qed.

Lemma shapely_json_result v : shapely (json_result w v).
Proof.
  apply shapely_bind. intros s. apply shapely_ret. split; [by eexists|by left].
Qed.

End ShapeFacts.

Ltac shapely_step :=
  match goal with
  | |- shapely (if ?b then _ else _) => destruct b
  | |- shapely (try_catch _ _) => apply shapely_try_catch; [|intros ?]
  | |- shapely (report _ _) => apply shapely_report
  | |- shapely (json_result _ _) => apply shapely_json_result
  | |- shapely (mret _) =>
      apply shapely_ret; split; [by eexists|by (left + right)]
  | |- shapely (_ ≫= _) => apply shapely_bind; intros ?
  end.

(** X7.  Whatever a registered tool's handler returns is an envelope with
    exactly one content block, of type [text], whose [isError] is either
    absent or [true]: no handler returns several blocks, none, or
    [isError: false]. *)
Theorem X7_one_text_block_per_result (w : World) (t : Tool) (rawInput : Val)
    (cb : M ToolResult) (st st' : St) (r : ToolResult) :
  t ∈ tools w →
  run_handler (heap w) t rawInput = Some cb →
  cb st = (Ok r, st') →
  one_text_block r.
Proof.
  intros Ht Hcb Hrun. assert (shapely cb) as Hshape.
  { clear Hrun. revert Hcb. each_tool Ht; simpl;
      try (destruct (_ (heap w) rawInput) as [args|]; [|done]);
      intros [= <-];
      repeat match goal with args : (_ * _)%type |- _ => destruct args end;
      unfold createSession, createSessionWithOptions, createWindow, pageQuery,
        terminateSession, getWindowInfo, paginatedExtraction, click, scroll,
        type_, scrape, fileInput, monitorForCondition;
      repeat shapely_step. }
  apply (Hshape st). by rewrite Hrun.
Qed.

Lemma X7_one_text_block_per_result_witness :
  one_text_block (error_result ("Errors from the API:" +:+ newline)).
Proof.
  apply (X7_one_text_block_per_result world_empty_errors
           (scroll_tool world_empty_errors) (VRef 3)
           (scroll world_empty_errors "s1" "w1" None)
           st_start
           {| sessionRegistry := ∅;
              calls := [WindowsScroll "s1" "w1" None] |}).
  - unfold tools. do 8 apply list_elem_of_further. apply list_elem_of_here.
  - reflexivity.
  - reflexivity.
Defined.

(* ===================================================================== *)
(** ** Further facts about the normalizers *)
(* ===================================================================== *)









Lemma plain_entry_returns (h : Heap) e :
  plain_entry h e → ∃ v, error_entry h e = Ok v ∧ val_refs v = [].
Proof.
  unfold error_entry.
  intros [Hfalsy|[[s ->]|(m & Hm & Hprim)]].
  - rewrite Hfalsy. by eexists.
  - destruct (truthy (VStr s)); by eexists.
  - destruct (truthy e); simpl; [|by eexists].
    unfold exposed_message in Hm.
    destruct e as [| |b|n|s|a]; [done|done|done|done|by exists (VStr s)|].
    destruct (get_prop h (VRef a) "message") as [m'| |]; [|done..].
    simpl. destruct (nullish m'); [done|].
    injection Hm as ->. by exists m.
Qed.

Lemma plain_entries_return (h : Heap) es :
  Forall (plain_entry h) es →
  ∃ mapped, mapM (error_entry h) es = Ok mapped
            ∧ Forall (λ v, val_refs v = []) mapped.
Proof.
  induction es as [|e es IH]; intros Hplain; [by exists []|].
  apply Forall_cons in Hplain as [He Hes].
  destruct (IH Hes) as (mapped & Hmapped & Hprim).
  destruct (plain_entry_returns h e He) as (v & Hv & Hvprim).
  exists (v :: mapped). split; [|by constructor].
  apply mapM_cons_Ok. by exists v, mapped.
Qed.

Lemma primitive_convertible (h : Heap) v : val_refs v = [] → convertible h v.
Proof.
  intros Hprim b props (r & Hr & _). rewrite Hprim in Hr.
  by apply elem_of_nil in Hr.
Qed.

Lemma plain_entries_reported (h : Heap) a es :
  h !! a = Some (OArray es) →
  Forall (plain_entry h) es →
  ∃ r, reportAirtopErrors h (VRef a) = Ok r ∧ isError r = Some true.
Proof.
  intros Ha Hplain.
  destruct (plain_entries_return h es Hplain) as (mapped & Hmapped & Hprim).
  destruct (settled_unthrown_Ok (reportAirtopErrors h (VRef a))) as [r Hr].
  - apply reportAirtopErrors_settled.
  - unfold reportAirtopErrors, nonempty_array. rewrite Ha.
    destruct es as [|e0 es0].
    + unfold String_. simpl. by rewrite Ha.
    + rewrite Hmapped. apply bind_unthrown; [|done].
      apply join_unthrown. eapply Forall_impl; [done|].
      apply primitive_convertible.
  - exists r. split; [done|]. by apply reportAirtopErrors_shape in Hr as [Herr _].
Qed.

(** X9.  Reference cycles and objects without a string form are harmless
    where the normalizer neither serializes nor converts: on an array whose
    every element is falsy, a string, or exposes a primitive message,
    [reportAirtopErrors] returns an error envelope in every heap, whatever
    else the elements hold. *)
Theorem X9_messages_shield_cycles (h : Heap) (a : nat) (es : list Val) :
  h !! a = Some (OArray es) →
  Forall (plain_entry h) es →
  ∃ r, reportAirtopErrors h (VRef a) = Ok r ∧ isError r = Some true.
Proof. apply plain_entries_reported. Qed.

Lemma X9_messages_shield_cycles_witness :
  ∃ r, reportAirtopErrors heap_shielded (VRef 1) = Ok r ∧ isError r = Some true.
Proof.
  apply (X9_messages_shield_cycles heap_shielded 1 [VRef 0]); [reflexivity|].
  constructor; [|constructor]. right. right. by eexists.
Defined.

Lemma exposed_message_entries (h : Heap) e m :
  exposed_message h e = Some m →
  inline_entry h e = Ok m ∧ error_entry h e = Ok m.
Proof.
  unfold exposed_message, inline_entry, error_entry. intros Hm.
  destruct e as [| |b|n|s|a]; simpl in *; try done.
  destruct (h !! a) as [[elems|props]|]; simpl in *; try done.
  destruct (nullish (default VUndefined (assoc "message" props))); [done|].
  by injection Hm as ->.
Qed.

(** X10.  On an array whose every element exposes a message, the earlier
    [reportAirtopErrors] and the present one end the same way: with the same
    envelope, or with the same TypeError where a message has no string form.
    The earlier one has no guard: on every array that starts with [null] it
    throws a TypeError, while the present one returns on such an array when
    its other elements are falsy, strings, or expose primitive messages. *)
Theorem X10_normalizers_agree_on_messages (h : Heap) (a : nat) (es : list Val) :
  h !! a = Some (OArray es) →
  (Forall (λ e, is_Some (exposed_message h e)) es →
   reportAirtopErrors_inline h (VRef a) = reportAirtopErrors h (VRef a))
  ∧ (∀ es', es = VNull :: es' →
       reportAirtopErrors_inline h (VRef a)
       = Throw (TypeError "Cannot read properties of null (reading 'message')")
       ∧ (Forall (plain_entry h) es' →
          ∃ r, reportAirtopErrors h (VRef a) = Ok r ∧ isError r = Some true)).
Proof.
  intros Ha. split.
  - intros Hes.
    assert (mapM (inline_entry h) es = mapM (error_entry h) es) as Hmap.
    { clear Ha. induction es as [|e es IH]; [done|].
      apply Forall_cons in Hes as [[m Hm] Hes].
      destruct (exposed_message_entries h e m Hm) as [Hinline Hentry].
      change (mapM (inline_entry h) (e :: es))
        with (inline_entry h e ≫= λ y, mapM (inline_entry h) es ≫= λ k, mret (y :: k)).
      change (mapM (error_entry h) (e :: es))
        with (error_entry h e ≫= λ y, mapM (error_entry h) es ≫= λ k, mret (y :: k)).
      by rewrite Hinline, Hentry, (IH Hes). }
    unfold reportAirtopErrors_inline, reportAirtopErrors, nonempty_array.
    rewrite Ha, Hmap. destruct es as [|e0 es0].
    + unfold String_. simpl. by rewrite Ha.
    + destruct (mapM (error_entry h) (e0 :: es0)) as [mapped| |]; simpl;
        [|done..].
      by destruct (join h newline mapped).
  - intros es' ->. split.
    + unfold reportAirtopErrors_inline. by rewrite Ha.
    + intros Hplain. apply (plain_entries_reported h a _ Ha).
      constructor; [by left|done].
Qed.

Lemma X10_normalizers_agree_on_messages_witness :
  reportAirtopErrors_inline heap_shielded (VRef 1)
  = reportAirtopErrors heap_shielded (VRef 1).
Proof.
  destruct (X10_normalizers_agree_on_messages heap_shielded 1 [VRef 0])
    as [Hagree _]; [reflexivity|].
  apply Hagree. constructor; [by eexists|constructor].
Defined.

(* ===================================================================== *)
(** ** Further facts about the gateway and the entry point *)
(* ===================================================================== *)

(** X11.  After any history of streams opened under fresh identifiers and
    closed while open, a POST naming a closed stream is answered with status
    400 (provided its identifier is not a key of [Object.prototype]), and a
    POST naming a stream still open is handed to that very stream. *)
Theorem X11_posts_follow_the_registry (evs : list Event) :
  orderly [] [] evs = true →
  ∃ transports,
    run_events evs ∅ = Some transports
    ∧ (∀ t, t ∈ closed evs →
            transport_sessionId t ∉ Object_prototype_keys →
            post_messages transports (Some (transport_sessionId t))
            = Status400 "No transport found for sessionId")
    ∧ (∀ t, t ∈ opened evs → t ∉ closed evs →
            post_messages transports (Some (transport_sessionId t))
            = HandlePostMessage t).
Proof.
  intros Hord.
  destruct (run_events_orderly evs [] [] ∅ Hord)
    as (reg' & Hrun & _ & _ & Hclosed & Hopen).
  { split; [by intros t Ht%elem_of_nil|].
    intros k [v Hv]. by rewrite lookup_empty in Hv. }
  exists reg'. split; [done|]. split.
  - intros t Ht Hkey. unfold post_messages, transports_get. simpl.
    rewrite (Hclosed t Ht). by rewrite bool_decide_eq_false_2.
  - intros t Ht Hnc. unfold post_messages, transports_get. simpl.
    by rewrite (Hopen t).
Qed.

Lemma X11_posts_follow_the_registry_witness :
  ∃ transports,
    run_events history_abc ∅ = Some transports
    ∧ (∀ t, t ∈ closed history_abc →
            transport_sessionId t ∉ Object_prototype_keys →
            post_messages transports (Some (transport_sessionId t))
            = Status400 "No transport found for sessionId")
    ∧ (∀ t, t ∈ opened history_abc → t ∉ closed history_abc →
            post_messages transports (Some (transport_sessionId t))
            = HandlePostMessage t).
Proof.
  apply (X11_posts_follow_the_registry history_abc). vm_compute. reflexivity.
Defined.

Lemma run_process_cases (argv : list string) (env : gmap string string) :
  run_process argv env
  = if info_flag argv then Exits 0
    else if has_credential env then
      if bool_decide ("--listen" ∈ argv) then Serves (Some PORT) else Serves None
    else Exits 0.
Proof.
  unfold run_process, main, info_flag, has_credential.
  repeat (case_bool_decide; simpl; try done);
    destruct (env !! "AIRTOP_API_KEY") as [apiKey|]; simpl; try done;
    by destruct (negb (String.eqb apiKey EmptyString)).
Qed.

(** X12.  [main] starts serving exactly when no help or version flag is
    given and the credential is set to a non-empty value, and it serves over
    HTTP, on the port 3456, exactly when [--listen] is given as well;
    otherwise it serves over stdio. *)
Theorem X12_when_main_serves (argv : list string) (env : gmap string string) :
  ((∃ port, run_process argv env = Serves port)
     ↔ info_flag argv = false ∧ has_credential env = true)
  ∧ (run_process argv env = Serves (Some PORT)
     ↔ info_flag argv = false ∧ has_credential env = true ∧ "--listen" ∈ argv)
  ∧ (run_process argv env = Serves None
     ↔ info_flag argv = false ∧ has_credential env = true ∧ "--listen" ∉ argv).
Proof.
  rewrite run_process_cases.
  destruct (info_flag argv), (has_credential env); try case_bool_decide;
    (split_and!;
       (split; intros Hcase;
        [try discriminate Hcase;
         try (lazymatch type of Hcase with
              | ex _ => destruct Hcase as [port' Hport]; try discriminate Hport
              end);
         repeat split; done
        |repeat match goal with H : _ ∧ _ |- _ => destruct H end;
         try discriminate; try done; by eexists])).
Qed.

(** X13.  The launcher passes none of its own arguments on: the server it
    spawns sees only the executable and the script path, so it prints neither
    help nor version and never listens on HTTP.  It connects over stdio when
    the credential is set and rejects otherwise; whenever that server process
    exits by itself the launcher exits with code 0 too.  The environment the
    launcher hands over has the credential exactly when its own has. *)
Theorem X13_launcher_drops_arguments (execPath serverPath : string)
    (env : gmap string string) :
  execPath ∉ main_flags → serverPath ∉ main_flags →
  main (launcher_argv execPath serverPath) env
    = ([], if has_credential env then MainStdio
           else MainRejects
                  (Raised "Error: AIRTOP_API_KEY environment variable is required"))
  ∧ (∀ code, run_process (launcher_argv execPath serverPath) env = Exits code →
             launcher_exit (ChildExit (Some code)) = 0%Z)
  ∧ has_credential (launcher_env env) = has_credential env.
Proof.
  intros Hexec Hserver.
  assert (∀ f, f ∈ main_flags →
               bool_decide (f ∈ launcher_argv execPath serverPath) = false)
    as Hflag.
  { intros f Hf. apply bool_decide_eq_false_2. intros Hin.
    apply elem_of_cons in Hin as [->|Hin]; [done|].
    apply elem_of_cons in Hin as [->|Hin]; [done|].
    by apply elem_of_nil in Hin. }
  assert (main (launcher_argv execPath serverPath) env
          = ([], if has_credential env then MainStdio
                 else MainRejects
                        (Raised "Error: AIRTOP_API_KEY environment variable is required")))
    as Hmain.
  { unfold main, has_credential.
    rewrite !Hflag by (unfold main_flags; repeat constructor). simpl.
    destruct (env !! "AIRTOP_API_KEY") as [apiKey|]; [|done].
    by destruct (negb (String.eqb apiKey EmptyString)). }
  split_and!; [done| |].
  - intros code. unfold run_process. rewrite Hmain. simpl.
    destruct (has_credential env); simpl; [done|]. by intros [= <-].
  - unfold has_credential, launcher_env. by rewrite lookup_insert_ne.
Qed.

Lemma X13_launcher_drops_arguments_witness :
  main (launcher_argv "/usr/bin/node" "/app/dist/server.js") ∅
    = ([], if has_credential ∅ then MainStdio
           else MainRejects
                  (Raised "Error: AIRTOP_API_KEY environment variable is required"))
  ∧ (∀ code, run_process (launcher_argv "/usr/bin/node" "/app/dist/server.js") ∅
               = Exits code →
             launcher_exit (ChildExit (Some code)) = 0%Z)
  ∧ has_credential (launcher_env ∅) = has_credential ∅.
Proof.
  apply (X13_launcher_drops_arguments "/usr/bin/node" "/app/dist/server.js" ∅).
  - by vm_compute; intros Hin; repeat (apply elem_of_cons in Hin as [[=]|Hin]);
      apply elem_of_nil in Hin.
  - by vm_compute; intros Hin; repeat (apply elem_of_cons in Hin as [[=]|Hin]);
      apply elem_of_nil in Hin.
Defined.




(** X15.  A session created under a profile and then terminated leaves no
    trace: after [createSessionWithOptions] has tracked the session that the
    backend named [sid], [terminateSession] on [sid] leaves the registry as
    it was before the creation, less any earlier entry for [sid], whatever
    the backend answers to the save and terminate calls. *)
Theorem X15_create_then_terminate (w : World) (st : St)
    (c : SessionOptionsConfig) (name sid : string) (session errors data : Val) :
  backend w (calls st) (SessionsCreate (Some (Some c))) = Returns session →
  get_prop (heap w) session "errors" = Ok errors → truthy errors = false →
  get_prop (heap w) session "data" = Ok data →
  opt_prop (heap w) data "id" = Ok (VStr sid) → truthy (VStr sid) = true →
  profileName c = Some name → truthy (VStr name) = true →
  let st1 := (createSessionWithOptions w (Some c) st).2 in
  let st2 := (terminateSession w sid st1).2 in
  (∃ created, lookup_session sid (sessionRegistry st1)
              = Some {| meta_sessionId := VStr sid;
                        meta_profileName := Some name;
                        meta_createdAt := created |})
  ∧ sessionRegistry st2 = release sid (sessionRegistry st)
  ∧ (lookup_session sid (sessionRegistry st) = None →
     sessionRegistry st2 = sessionRegistry st).
Proof.
  intros Hcreate Herrors Hnone Hdata Hid Hidt Hname Hnamet st1 st2.
  pose proof (createSessionWithOptions_tracked w st c name session errors data
                (VStr sid) Hcreate Herrors Hnone Hdata Hid Hidt Hname Hnamet)
    as Htracked.
  simpl in Htracked. subst st2 st1.
  destruct (createSessionWithOptions w (Some c) st) as [out st1].
  destruct Htracked as (Hreg & _ & _). simpl.
  assert (sessionRegistry (terminateSession w sid st1).2
          = release sid (sessionRegistry st)) as Hfinal.
  { unfold terminateSession, mbind, M_bind, update_registry, call. simpl.
    destruct (backend w (calls st1) (SessionsTerminate sid)); simpl;
      rewrite Hreg; unfold release, track; apply delete_insert_eq. }
  split_and!.
  - eexists. rewrite Hreg. unfold lookup_session, track. apply lookup_insert_eq.
  - done.
  - intros Habsent. rewrite Hfinal. by apply delete_id.
Qed.

Lemma X15_create_then_terminate_witness :
  let st1 := (createSessionWithOptions world_profile (Some config_work) st_start).2 in
  let st2 := (terminateSession world_profile "s9" st1).2 in
  (∃ created, lookup_session "s9" (sessionRegistry st1)
              = Some {| meta_sessionId := VStr "s9";
                        meta_profileName := Some "work";
                        meta_createdAt := created |})
  ∧ sessionRegistry st2 = release "s9" (sessionRegistry st_start)
  ∧ (lookup_session "s9" (sessionRegistry st_start) = None →
     sessionRegistry st2 = sessionRegistry st_start).
Proof.
  apply (X15_create_then_terminate world_profile st_start config_work "work" "s9"
           (VRef 0) VUndefined (VRef 1)); reflexivity.
Defined.

(** X16.  Nothing is recorded before the creation has succeeded: when the
    backend's reply reports errors, or carries no truthy [id], then
    [createSessionWithOptions] leaves the session registry as it was and
    makes no second call, even under a profile name. *)
Theorem X16_failed_creation_is_not_tracked (w : World) (st : St)
    (configuration : option SessionOptionsConfig) (session errors : Val) :
  backend w (calls st) (SessionsCreate (Some configuration)) = Returns session →
  get_prop (heap w) session "errors" = Ok errors →
  (truthy errors = true
   ∨ ∃ data id, get_prop (heap w) session "data" = Ok data
                ∧ opt_prop (heap w) data "id" = Ok id ∧ truthy id = false) →
  let st' := (createSessionWithOptions w configuration st).2 in
  sessionRegistry st' = sessionRegistry st
  ∧ calls st' = (calls st ++ [SessionsCreate (Some configuration)])%list.
Proof.
  intros Hcreate Herrors Hcase st'. subst st'.
  unfold createSessionWithOptions, json_result, try_catch, mbind, M_bind, call,
    prop, prop_opt, report, lift.
  rewrite Hcreate. simpl. rewrite Herrors.
  destruct Hcase as [Ht|(data & id & Hdata & Hid & Hidt)].
  - by rewrite Ht.
  - destruct (truthy errors); simpl; [done|].
    rewrite Hdata, Hid. simpl. rewrite Hidt. simpl.
    destruct (option_bind _ _ profileName configuration); simpl;
      by destruct (JSON_stringify (heap w) data).
Qed.

Lemma X16_failed_creation_is_not_tracked_witness :
  let st' := (createSessionWithOptions world_empty_errors (Some config_work) st_start).2 in
  sessionRegistry st' = sessionRegistry st_start
  ∧ calls st' = (calls st_start ++ [SessionsCreate (Some (Some config_work))])%list.
Proof.
  apply (X16_failed_creation_is_not_tracked world_empty_errors st_start
           (Some config_work) (VRef 0) (VRef 1)); [reflexivity|reflexivity|].
  left. reflexivity.
Defined.
